(** * The jail plugin of the middleware: a shallow embedding

    The file follows [middlewared/plugins/jail.py].  The service methods are
    embedded as functions in a state-and-exception monad over a [World] that
    stands for everything the plugin reaches through iocage and libzfs: the
    jail inventory, the ZFS pools and their user properties, the directories
    below the iocage root.  Every call that leaves the plugin is recorded in
    a trace, so that "nothing was delegated" and "this happened before that"
    are statements about lists. *)

From Stdlib Require Import String Ascii List Bool ZArith Lia.
From stdpp Require Import base option list gmap strings fin_maps.

Local Open Scope string_scope.
Local Open Scope list_scope.

(** ** Python strings *)

Module PyStr.

Definition dash : ascii := "-"%char.

(** The part of [s] before its last ["-"], when [s] has one. *)
Fixpoint before_last_dash (s : string) : option string :=
  match s with
  | EmptyString => None
  | String c r =>
      match before_last_dash r with
      | Some p => Some (String c p)
      | None => if Ascii.eqb c dash then Some EmptyString else None
      end
  end.

(** [s.rsplit("-", 1)[0]] *)
Definition rsplit_dash_head (s : string) : string :=
  default s (before_last_dash s).

(** [sub in s] *)
Fixpoint contains (sub s : string) : bool :=
  String.prefix sub s ||
  match s with
  | EmptyString => false
  | String _ r => contains sub r
  end.

(** A string is read as a sequence of code points below 256, one per
    character.  [is_space] is [str.isspace] on them: tab to carriage return,
    the separators 28 to 31, the space, NEL (133) and the no-break space
    (160). *)
Definition is_space (c : ascii) : bool :=
  match c with
  | " "%char | "009"%char | "010"%char | "011"%char
  | "012"%char | "013"%char
  | "028"%char | "029"%char | "030"%char | "031"%char
  | "133"%char | "160"%char => true
  | _ => false
  end.

(** [s.split()]: the maximal runs of characters that are not white space.
    [cur] is the run being read, in reverse. *)
Fixpoint split_ws_go (cur : list ascii) (s : string) : list string :=
  let flush (k : list string) :=
    match cur with
    | [] => k
    | _ => string_of_list_ascii (rev cur) :: k
    end in
  match s with
  | EmptyString => flush []
  | String c r =>
      if is_space c then flush (split_ws_go [] r)
      else split_ws_go (c :: cur) r
  end.

Definition split_ws (s : string) : list string := split_ws_go [] s.

(** Truth value of a string: the empty string is false. *)
Definition truthy (s : string) : bool :=
  match s with EmptyString => false | _ => true end.

Definition no_dash (s : string) : bool :=
  forallb (fun c => negb (Ascii.eqb c dash)) (list_ascii_of_string s).

End PyStr.

(** ** Data *)

(** A jail as iocage lists it: where its dataset is mounted, whether it is
    running ([IOCList.list_get_jid]), the properties written with
    [iocage.set] and the lines of its fstab. *)
Record Jail := mkJail {
  j_path : string;
  j_running : bool;
  j_props : list string;
  j_fstab : list string
}.

(** The keys of a jail's configuration file that the plugin reads:
    [conf["type"]], [conf["release"]], [conf["basejail"]]. *)
Record Conf := mkConf {
  c_type : string;
  c_release : string;
  c_basejail : string
}.

Definition with_running (b : bool) (j : Jail) : Jail :=
  mkJail (j_path j) b (j_props j) (j_fstab j).

Definition with_props (ps : list string) (j : Jail) : Jail :=
  mkJail (j_path j) (j_running j) ps (j_fstab j).

Definition with_fstab (ls : list string) (j : Jail) : Jail :=
  mkJail (j_path j) (j_running j) (j_props j) ls.

Definition with_release (r : string) (c : Conf) : Conf :=
  mkConf (c_type c) r (c_basejail c).

(** The schema of [create_job]. [template], [pkglist] and [uuid] are read with
    [options.get] and may be missing. *)
Record CreateOptions := mkCreateOptions {
  co_release : string;
  co_template : option string;
  co_pkglist : option string;
  co_uuid : option string;
  co_basejail : bool;
  co_empty : bool;
  co_short : bool;
  co_props : list string
}.

(** The schema of [fetch], after the defaults of [@accepts] are filled in.
    [fo_plugins] is the key ["plugins"], which the schema does not have and
    [fetch] adds. *)
Record FetchOptions := mkFetchOptions {
  fo_release : string;
  fo_server : string;
  fo_user : string;
  fo_password : string;
  fo_name : option string;
  fo_accept : bool;
  fo_props : list string;
  fo_files : list string;
  fo_plugins : option bool
}.

Definition fetch_defaults (release : string) : FetchOptions :=
  mkFetchOptions release "download.freebsd.org" "anonymous" "anonymous@"
                 None false [] ["MANIFEST"; "base.txz"; "lib32.txz"; "doc.txz"]
                 None.

Definition with_plugins (b : bool) (o : FetchOptions) : FetchOptions :=
  mkFetchOptions (fo_release o) (fo_server o) (fo_user o) (fo_password o)
                 (fo_name o) (fo_accept o) (fo_props o) (fo_files o) (Some b).

(** What [iocage.create] is called with. *)
Record CreateArgs := mkCreateArgs {
  ca_release : string;
  ca_props : list string;
  ca_pkglist : option string;
  ca_template : option string;
  ca_short : bool;
  ca_uuid : option string;
  ca_basejail : bool;
  ca_empty : bool
}.

Inductive FstabAction := ADD | EDIT | REMOVE | REPLACE | LIST.

Record FstabOptions := mkFstabOptions {
  fs_action : FstabAction;
  fs_source : string;
  fs_destination : string;
  fs_fstype : string;
  fs_fsoptions : string;
  fs_dump : string;
  fs_pass : string;
  fs_index : option Z
}.

Inductive ResourceKind := RELEASE | TEMPLATE | PLUGIN.

(** An element of the list [list_resource] returns: the name of a release, or
    a row of cells, each a string or [None]. *)
Inductive Resource :=
| Name (s : string)
| Row (cells : list (option string)).

(** The calls that leave the plugin. *)
Inductive Event :=
| EvGetAll
| EvLogDebug (msg : string)
| EvCheck
| EvFetch (o : FetchOptions)
| EvCreate (a : CreateArgs)
| EvSet (uuid p : string) (plugin : bool)
| EvRename (uuid name : string)
| EvDestroy (uuid : string)
| EvStart (uuid : string)
| EvStop (uuid : string)
| EvFstab (uuid : string) (o : FstabOptions)
| EvZfsSet (dataset prop value : string)
| EvFetchUpdate (release : string) (uuid : option string)
| EvUpgradeJail (conf : Conf) (release root_path : string)
| EvExportJail (uuid path : string).

(** [jails] is keyed by jail identifier, [confs] by dataset path (the
    configuration files [IOCJson(path)] opens), [zprops] by dataset name and
    property name. *)
Record World := mkWorld {
  jails : gmap string Jail;
  confs : gmap string Conf;
  pools : list string;
  zprops : gmap (string * string) string;
  dirs : gset string;
  iocroot : string;
  uuidgen : string;
  releases_local : list string;
  releases_remote : list string;
  plugins_local : list (list (option string));
  plugins_remote : list (list (option string));
  templates : list (list (option string));
  trace : list Event
}.

Definition set_jails (f : gmap string Jail -> gmap string Jail) (w : World) : World :=
  mkWorld (f (jails w)) (confs w) (pools w) (zprops w) (dirs w) (iocroot w) (uuidgen w)
          (releases_local w) (releases_remote w) (plugins_local w)
          (plugins_remote w) (templates w) (trace w).

Definition set_confs (f : gmap string Conf -> gmap string Conf) (w : World) : World :=
  mkWorld (jails w) (f (confs w)) (pools w) (zprops w) (dirs w) (iocroot w) (uuidgen w)
          (releases_local w) (releases_remote w) (plugins_local w)
          (plugins_remote w) (templates w) (trace w).

Definition set_zprops (f : gmap (string * string) string -> gmap (string * string) string)
    (w : World) : World :=
  mkWorld (jails w) (confs w) (pools w) (f (zprops w)) (dirs w) (iocroot w) (uuidgen w)
          (releases_local w) (releases_remote w) (plugins_local w)
          (plugins_remote w) (templates w) (trace w).

Definition set_dirs (f : gset string -> gset string) (w : World) : World :=
  mkWorld (jails w) (confs w) (pools w) (zprops w) (f (dirs w)) (iocroot w) (uuidgen w)
          (releases_local w) (releases_remote w) (plugins_local w)
          (plugins_remote w) (templates w) (trace w).

Definition log (ev : Event) (w : World) : World :=
  mkWorld (jails w) (confs w) (pools w) (zprops w) (dirs w) (iocroot w) (uuidgen w)
          (releases_local w) (releases_remote w) (plugins_local w)
          (plugins_remote w) (templates w) (trace w ++ [ev]).

(** ** Exceptions and the monad of service methods *)

Inductive Exn :=
| SystemExit
| CallError (msg : string)
| ValueError (msg : string)
| IndexError
| IocError (msg : string).

Inductive Res (A : Type) :=
| Ok (a : A)
| Raise (e : Exn).

Arguments Ok {A} a.
Arguments Raise {A} e.

Definition M (A : Type) : Type := World -> Res A * World.

Definition ret {A} (a : A) : M A := fun w => (Ok a, w).

Definition raise {A} (e : Exn) : M A := fun w => (Raise e, w).

Definition bind {A B} (c : M A) (k : A -> M B) : M B :=
  fun w =>
    match c w with
    | (Ok a, w') => k a w'
    | (Raise e, w') => (Raise e, w')
    end.

Notation "'let!' x ':=' c 'in' k" := (bind c (fun x => k))
  (at level 10, x name, c at level 100, k at level 200, only parsing).
Notation "c ;;; k" := (bind c (fun _ => k))
  (at level 100, k at level 200, only parsing, right associativity).

(** [try: c except: h]; [h e = None] when no clause matches [e]. *)
Definition try_except {A} (c : M A) (h : Exn -> option (M A)) : M A :=
  fun w =>
    match c w with
    | (Ok a, w') => (Ok a, w')
    | (Raise e, w') =>
        match h e with
        | Some k => k w'
        | None => (Raise e, w')
        end
    end.

Definition when (b : bool) (c : M unit) : M unit :=
  if b then c else ret tt.

(** [for x in xs: body x] *)
Fixpoint for_each {A} (xs : list A) (body : A -> M unit) : M unit :=
  match xs with
  | [] => ret tt
  | x :: r => body x ;;; for_each r body
  end.

Definition read {A} (f : World -> A) : M A := fun w => (Ok (f w), w).

(** ** Python dictionaries that keep insertion order *)

(** [d[k] = v]: a key already present keeps its place. *)
Fixpoint dict_set {K V} `{EqDecision K} (k : K) (v : V) (d : list (K * V)) : list (K * V) :=
  match d with
  | [] => [(k, v)]
  | (k', v') :: r =>
      if decide (k' = k) then (k, v) :: r else (k', v') :: dict_set k v r
  end.

Fixpoint dict_get {K V} `{EqDecision K} (k : K) (d : list (K * V)) : option V :=
  match d with
  | [] => None
  | (k', v) :: r => if decide (k' = k) then Some v else dict_get k r
  end.

(** ** [middlewared.utils.filter_list] *)

Definition JailDict : Type := list (string * string).

Inductive CmpOp := OpEq | OpNe | OpGt | OpGe | OpLt | OpLe.

Inductive Filter :=
| Cmp (attr : string) (op : CmpOp) (v : string)
| Member (attr : string) (negated : bool) (vs : list string).

Record QueryOptions := mkQueryOptions {
  qo_order_by : option (string * bool);
  qo_offset : nat;
  qo_limit : option nat
}.

Definition no_options : QueryOptions := mkQueryOptions None 0 None.

Definition cmp_holds (op : CmpOp) (a v : string) : bool :=
  match op with
  | OpEq => String.eqb a v
  | OpNe => negb (String.eqb a v)
  | OpGt => String.ltb v a
  | OpGe => String.leb v a
  | OpLt => String.ltb a v
  | OpLe => String.leb a v
  end.

Definition filter_holds (j : JailDict) (f : Filter) : bool :=
  match f with
  | Cmp attr op v =>
      match dict_get attr j with
      | Some a => cmp_holds op a v
      | None => false
      end
  | Member attr negated vs =>
      match dict_get attr j with
      | Some a => xorb negated (existsb (String.eqb a) vs)
      | None => false
      end
  end.

Definition key_le (attr : string) (descending : bool) (a b : JailDict) : bool :=
  let ka := default EmptyString (dict_get attr a) in
  let kb := default EmptyString (dict_get attr b) in
  if descending then String.leb kb ka else String.leb ka kb.

Fixpoint insert_sorted (le : JailDict -> JailDict -> bool) (x : JailDict)
    (l : list JailDict) : list JailDict :=
  match l with
  | [] => [x]
  | y :: r => if le x y then x :: y :: r else y :: insert_sorted le x r
  end.

Definition sort_by (le : JailDict -> JailDict -> bool) (l : list JailDict) : list JailDict :=
  foldr (insert_sorted le) [] l.

(** Modelled from the spec: [filter_list] lives in [middlewared/utils],
    outside the plugin.  The specification gives it as generic filter, sort
    and pagination: equality, comparison and membership predicates over the
    attributes, then a sort key with ascending or descending order, then
    offset and limit. *)
Definition filter_list (l : list JailDict) (filters : list Filter)
    (options : QueryOptions) : list JailDict :=
  let rv := List.filter (fun j => forallb (filter_holds j) filters) l in
  let rv :=
    match qo_order_by options with
    | Some (attr, descending) => sort_by (key_le attr descending) rv
    | None => rv
    end in
  let rv := drop (qo_offset options) rv in
  match qo_limit options with
  | Some n => take n rv
  | None => rv
  end.

(** ** The service *)

Inductive FstabResult :=
| FstabTrue
| FstabListing (split_list : list (Z * list string)).

(** The options of [do_update]: the schema's ["plugin"], the optional
    ["name"], and whatever other keys the caller sent, in order. *)
Record UpdateOptions := mkUpdateOptions {
  uo_plugin : bool;
  uo_name : option string;
  uo_attrs : list (string * string)
}.

Definition truthy_opt (o : option string) : bool :=
  match o with
  | Some s => PyStr.truthy s
  | None => false
  end.

Definition release_dir (root release : string) : string :=
  root +:+ "/releases/" +:+ release.

Definition fstab_line (o : FstabOptions) : string :=
  fs_source o +:+ " " +:+ fs_destination o +:+ " " +:+ fs_fstype o +:+ " " +:+
  fs_fsoptions o +:+ " " +:+ fs_dump o +:+ " " +:+ fs_pass o.

(** What [iocage.fstab] does to the lines of a jail's fstab. *)
Definition fstab_effect (o : FstabOptions) (ls : list string) : list string :=
  match fs_action o, fs_index o with
  | ADD, _ => ls ++ [fstab_line o]
  | REMOVE, Some i => if (i <? 0)%Z then ls else delete (Z.to_nat i) ls
  | REMOVE, None => List.filter (fun l => negb (String.eqb l (fstab_line o))) ls
  | REPLACE, Some i => if (i <? 0)%Z then ls else <[Z.to_nat i := fstab_line o]> ls
  | _, _ => ls
  end.

Definition fstab_action_lower (a : FstabAction) : string :=
  match a with
  | ADD => "add"
  | EDIT => "edit"
  | REMOVE => "remove"
  | REPLACE => "replace"
  | LIST => "list"
  end.

(** [resource.lower()] on the three values of the schema's enum. *)
Definition resource_lower (r : ResourceKind) : string :=
  match r with
  | RELEASE => "release"
  | TEMPLATE => "template"
  | PLUGIN => "plugin"
  end.

Definition is_release (r : ResourceKind) : bool :=
  match r with RELEASE => true | _ => false end.

Definition prop_active : string := "org.freebsd.ioc:active".

(** The attributes [iocage.get("all")] answers with for one jail. *)
Definition jail_dict (w : World) (uuid : string) (j : Jail) : JailDict :=
  [("host_hostuuid", uuid); ("state", if j_running j then "up" else "down")] ++
  match confs w !! j_path j with
  | Some c => [("type", c_type c); ("release", c_release c); ("basejail", c_basejail c)]
  | None => []
  end.

Section JailService.

(** The backend is a collaborator the plugin does not control.  [fault ev]
    says whether the call [ev] fails, and with which message. *)
Variable fault : Event -> option string.

(** [Job.wait_sync] is part of the middleware's job machinery: whether it
    raises the error of a failed job in the waiting thread is left open. *)
Variable wait_sync_raises : bool.

(** A call that leaves the plugin: it is traced; it raises when the backend
    fails, and has its effect otherwise. *)
Definition ioc (ev : Event) (effect : World -> World) : M unit :=
  fun w =>
    match fault ev with
    | Some msg => (Raise (IocError msg), log ev w)
    | None => (Ok tt, effect (log ev w))
    end.

(** [self.logger.debug(msg, exc_info=True)] *)
Definition logger_debug (msg : string) : M unit :=
  fun w => (Ok tt, log (EvLogDebug msg) w).

(** [iocage.__check_jail_existence__()]: exits when no jail matches. *)
Definition ioc_check_jail_existence (jail : string) : M (string * string) :=
  fun w =>
    match jails w !! jail with
    | Some j => (Ok (jail, j_path j), w)
    | None => (Raise SystemExit, w)
    end.

(** [IOCList.list_get_jid(uuid)], first component. *)
Definition list_get_jid (uuid : string) : M bool :=
  read (fun w => from_option j_running false (jails w !! uuid)).

(** [IOCJson(path).json_load()] *)
Definition json_load (path : string) : M Conf :=
  fun w =>
    match confs w !! path with
    | Some c => (Ok c, w)
    | None => (Raise (IocError "no configuration"), w)
    end.

(** [ioc.IOCage().get("all", recursive=True)]: one dictionary per jail, from
    its identifier to its attributes. *)
Definition ioc_get_all : M (list (list (string * JailDict))) :=
  ioc EvGetAll id ;;;
  read (fun w => (fun kv => [(kv.1, jail_dict w kv.1 kv.2)]) <$> map_to_list (jails w)).

(** [list(jail.values())[0]] *)
Definition first_value (jail : list (string * JailDict)) : M JailDict :=
  match jail with
  | [] => raise IndexError
  | (_, v) :: _ => ret v
  end.

(** [[f x for x in xs]] *)
Fixpoint comprehension {A B} (f : A -> M B) (xs : list A) : M (list B) :=
  match xs with
  | [] => ret []
  | x :: r => let! y := f x in let! ys := comprehension f r in ret (y :: ys)
  end.

Definition query (filters : list Filter) (options : option QueryOptions)
    : M (list JailDict) :=
  let options := default no_options options in
  let! jails :=
    try_except
      (let! all := ioc_get_all in comprehension first_value all)
      (fun _ => Some (logger_debug "iocage failed to fetch jails" ;;; ret [])) in
  ret (filter_list jails filters options).

Definition check_dataset_existence : M unit := ioc EvCheck id.

Definition check_jail_existence (jail : string) (skip : bool) : M (string * string) :=
  try_except (ioc_check_jail_existence jail)
    (fun e =>
       match e with
       | SystemExit => Some (raise (CallError ("jail '" +:+ jail +:+ "' not found!")))
       | _ => None
       end).

Definition fetch (options : FetchOptions) : M bool :=
  check_dataset_existence ;;;
  let options :=
    match fo_name options with
    | Some _ => with_plugins true options
    | None => options
    end in
  ioc (EvFetch options)
      (fun w => set_dirs (union {[release_dir (iocroot w) (fo_release options)]}) w) ;;;
  ret true.

(** [self.middleware.call_sync(name, args).wait_sync()]: the job runs to its
    end in the calling thread. *)
Definition call_sync_wait {A} (job : M A) : M unit :=
  fun w =>
    match job w with
    | (Ok _, w') => (Ok tt, w')
    | (Raise e, w') => if wait_sync_raises then (Raise e, w') else (Ok tt, w')
    end.

(** What a successful [iocage.create] leaves behind: a stopped jail and its
    configuration, under the identifier asked for or a generated one. *)
Definition new_jail (a : CreateArgs) (w : World) : World :=
  let uuid := default (uuidgen w) (ca_uuid a) in
  let path := iocroot w +:+ "/jails/" +:+ uuid in
  set_confs (insert path (mkConf "jail" (ca_release a)
                                 (if ca_basejail a then "yes" else "no")))
            (set_jails (insert uuid (mkJail path false (ca_props a) [])) w).

(** [iocage.create(...)] reports a failure in its result, [(err, msg)]. *)
Definition ioc_create (a : CreateArgs) : M (bool * string) :=
  fun w =>
    match fault (EvCreate a) with
    | Some msg => (Ok (true, msg), log (EvCreate a) w)
    | None => (Ok (false, EmptyString), new_jail a (log (EvCreate a) w))
    end.

Definition create_job (options : CreateOptions) : M bool :=
  let release := co_release options in
  let template := co_template options in
  let pkglist := co_pkglist options in
  let uuid := co_uuid options in
  let basejail := co_basejail options in
  let empty := co_empty options in
  let short := co_short options in
  let props := co_props options in
  let! iocroot := read iocroot in
  let release := if truthy_opt template then default EmptyString template else release in
  let! isdir := read (fun w => bool_decide (release_dir iocroot release ∈ dirs w)) in
  when (negb isdir && negb (truthy_opt template) && negb empty)
       (call_sync_wait (fetch (fetch_defaults release))) ;;;
  let! r := ioc_create (mkCreateArgs release props pkglist template short uuid
                                basejail empty) in
  if r.1 then raise (CallError r.2) else ret true.

Definition do_update (jail : string) (options : UpdateOptions) : M bool :=
  let plugin := uo_plugin options in
  let! r := check_jail_existence jail true in
  let uuid := r.1 in
  let name := uo_name options in
  for_each (uo_attrs options)
    (fun kv =>
       let p := kv.1 +:+ "=" +:+ kv.2 in
       ioc (EvSet uuid p plugin)
           (set_jails (alter (fun j => with_props (j_props j ++ [p]) j) uuid))) ;;;
  when (truthy_opt name)
    (let name := default EmptyString name in
     ioc (EvRename uuid name)
         (set_jails (fun m =>
            match m !! uuid with
            | Some j => <[name := j]> (delete uuid m)
            | None => m
            end))) ;;;
  ret true.

Definition do_delete (jail : string) : M bool :=
  let! r := check_jail_existence jail true in
  ioc (EvDestroy r.1)
      (fun w => set_confs (delete r.2) (set_jails (delete r.1) w)) ;;;
  ret true.

Definition start (jail : string) : M bool :=
  let! r := check_jail_existence jail true in
  ioc (EvStart r.1) (set_jails (alter (with_running true) r.1)) ;;;
  ret true.

Definition stop (jail : string) : M bool :=
  let! r := check_jail_existence jail true in
  ioc (EvStop r.1) (set_jails (alter (with_running false) r.1)) ;;;
  ret true.

(** [elem if elem != "-" else None] *)
Definition dash_to_none (elem : option string) : option string :=
  if decide (elem = Some "-") then None else elem.

Definition list_resource (resource : ResourceKind) (remote : bool) : M (list Resource) :=
  check_dataset_existence ;;;
  let resource := if is_release resource then "base" else resource_lower resource in
  if String.eqb resource "plugin" then
    let! resource_list := read (if remote then plugins_remote else plugins_local) in
    ret (Row <$> (fmap dash_to_none <$> resource_list))
  else if String.eqb resource "base" then
    let! resource_list := read (if remote then releases_remote else releases_local) in
    ret (Name <$> resource_list)
  else
    let! resource_list := read templates in
    ret (Row <$> resource_list).

(** [iocage.fstab(action, ...)]; its result is the numbered lines of the
    jail's fstab. *)
Definition ioc_fstab (uuid : string) (o : FstabOptions) : M (list (Z * string)) :=
  ioc (EvFstab uuid o)
      (set_jails (alter (fun j => with_fstab (fstab_effect o (j_fstab j)) j) uuid)) ;;;
  read (fun w =>
          match jails w !! uuid with
          | Some j => imap (fun i l => (Z.of_nat i, l)) (j_fstab j)
          | None => []
          end).

Definition fstab (jail : string) (options : FstabOptions) : M FstabResult :=
  let! r := check_jail_existence jail false in
  let action := fstab_action_lower (fs_action options) in
  let index := fs_index options in
  if String.eqb action "replace" && bool_decide (index = None) then
    raise (ValueError "index must not be None when replacing fstab entry")
  else
    let! _list := ioc_fstab r.1 options in
    if String.eqb action "list" then
      ret (FstabListing
             (foldl (fun split_list i => dict_set i.1 (PyStr.split_ws i.2) split_list)
                    [] _list))
    else ret FstabTrue.

Definition activate (pool : string) : M bool :=
  let! pools := read pools in
  let prop := prop_active in
  for_each pools
    (fun _pool =>
       if String.eqb _pool pool then
         ioc (EvZfsSet _pool prop "yes") (set_zprops (insert (_pool, prop) "yes"))
       else
         ioc (EvZfsSet _pool prop "no") (set_zprops (insert (_pool, prop) "no"))) ;;;
  ret true.

(** Lines 339 and 340: the release handed to [IOCFetch]. *)
Definition patch_release (conf_release : string) : string :=
  let _release := PyStr.rsplit_dash_head conf_release in
  if PyStr.contains "-RELEASE" _release then _release else conf_release.

Definition update_to_latest_patch (jail : string) : M bool :=
  let! r := check_jail_existence jail true in
  let uuid := r.1 in
  let path := r.2 in
  let! status := list_get_jid uuid in
  let! conf := json_load path in
  let release := patch_release (c_release conf) in
  if String.eqb (c_type conf) "jail" then
    let! started :=
      (if negb status then start jail ;;; ret true else ret false) in
    (if negb (String.eqb (c_basejail conf) "yes") then
       ioc (EvFetchUpdate release (Some uuid)) id
     else
       ioc (EvFetchUpdate release None) id) ;;;
    when started (stop jail ;;; ret tt) ;;;
    ret true
  else ret false.

Definition upgrade (jail release : string) : M bool :=
  let! r := check_jail_existence jail true in
  let uuid := r.1 in
  let path := r.2 in
  let! status := list_get_jid uuid in
  let! conf := json_load path in
  let root_path := path +:+ "/root" in
  if String.eqb (c_type conf) "jail" then
    let! started :=
      (if negb status then start jail ;;; ret true else ret false) in
    ioc (EvUpgradeJail conf release root_path)
        (set_confs (alter (with_release release) path)) ;;;
    when started (stop jail ;;; ret tt) ;;;
    ret true
  else ret false.

Definition export (jail : string) : M bool :=
  let! r := check_jail_existence jail true in
  let uuid := r.1 in
  let path := r.2 in
  let! status := list_get_jid uuid in
  let! started :=
    (if status then stop jail ;;; ret true else ret false) in
  ioc (EvExportJail uuid path) id ;;;
  when started (start jail ;;; ret tt) ;;;
  ret true.

End JailService.

(** ** The vocabulary of the specification *)

(** The specification's [NotFoundError]: what identifier resolution raises. *)
Definition NotFoundError (jail : string) : Exn :=
  CallError ("jail '" +:+ jail +:+ "' not found!").

(** The specification's [ValidationError] for a missing index. *)
Definition ValidationError : Exn :=
  ValueError "index must not be None when replacing fstab entry".

(** The active flag of a pool. *)
Definition active (w : World) (pool : string) : bool :=
  bool_decide (zprops w !! (pool, prop_active) = Some "yes").

Definition run_state (w : World) (jail : string) : option bool :=
  j_running <$> jails w !! jail.

(** The releases handed to the external updater, in order. *)
Definition updater_releases (t : list Event) : list string :=
  omap (fun ev => match ev with EvFetchUpdate r _ => Some r | _ => None end) t.

Definition is_fetch_event (ev : Event) : bool :=
  match ev with
  | EvCheck | EvFetch _ => true
  | _ => false
  end.

(** ** A small deployment, for examples *)

Definition no_fault : Event -> option string := fun _ => None.

Definition demo : World :=
  mkWorld
    (<["db1" := mkJail "/iocage/jails/db1" true [] []]>
     (<["web1" := mkJail "/iocage/jails/web1" false [] ["/tmp /mnt nullfs rw 0 0"]]>
      (<["tpl" := mkJail "/iocage/jails/tpl" false [] []]> ∅)))
    (<["/iocage/jails/db1" := mkConf "jail" "11.1-RELEASE-p4" "no"]>
     (<["/iocage/jails/web1" := mkConf "jail" "11.1-RELEASE" "yes"]>
      (<["/iocage/jails/tpl" := mkConf "template" "11.1-RELEASE" "no"]> ∅)))
    ["tank"; "data"] ∅ {["/iocage/releases/11.1-RELEASE"]} "/iocage" "fresh"
    ["11.1-RELEASE"] ["11.1-RELEASE"; "12.2-RELEASE"]
    [[Some "-"; Some "plex"]] [] [[Some "-"; Some "tpl"; Some "off"]] [].

Definition fail_on_export (ev : Event) : option string :=
  match ev with
  | EvExportJail _ _ => Some "archive failed"
  | _ => None
  end.

Definition fail_on_get_all (ev : Event) : option string :=
  match ev with
  | EvGetAll => Some "iocage is not activated"
  | _ => None
  end.

(** The value [activate pool] writes to the active property of pool [p]. *)
Definition flag (pool p : string) : string :=
  if String.eqb p pool then "yes" else "no".

(** The sweep of [activate] over the pools [ps], on the property table. *)
Definition sweep (pool : string) (ps : list string)
    (z : gmap (string * string) string) : gmap (string * string) string :=
  foldl (fun z p => <[(p, prop_active) := flag pool p]> z) z ps.

Definition writes_succeed (fault : Event -> option string) : Prop :=
  forall p v, fault (EvZfsSet p prop_active v) = None.

(** The condition on lines 91 and 92 of [create_job], read on the requested
    release. *)
Definition needs_fetch (options : CreateOptions) (w : World) : bool :=
  negb (bool_decide (release_dir (iocroot w) (co_release options) ∈ dirs w)) &&
  negb (truthy_opt (co_template options)) &&
  negb (co_empty options).

(** What [create_job] hands to [iocage.create]. *)
Definition create_args (options : CreateOptions) : CreateArgs :=
  mkCreateArgs
    (if truthy_opt (co_template options)
     then default EmptyString (co_template options) else co_release options)
    (co_props options) (co_pkglist options) (co_template options)
    (co_short options) (co_uuid options) (co_basejail options)
    (co_empty options).

(** The two run-state transitions, by the state they lead to. *)
Definition transition (fault : Event -> option string) (b : bool) : string -> M bool :=
  if b then start fault else stop fault.

Definition EvTransition (b : bool) (uuid : string) : Event :=
  if b then EvStart uuid else EvStop uuid.

(** The call [update_to_latest_patch] delegates to. *)
Definition update_event (uuid : string) (c : Conf) : Event :=
  EvFetchUpdate (patch_release (c_release c))
                (if negb (String.eqb (c_basejail c) "yes") then Some uuid else None).

(** What a bracketed operation [op] does on [jail] once the bracket has put
    the jail in the state [required], reaching the world [w1]: [body] is the
    delegated call.  When the body fails, its error comes out at once and the
    jail stays in the state [required]; when the body and the transition back
    succeed, the operation returns [true] and the run state is the one before
    the operation. *)
Definition bracket_outcome (fault : Event -> option string) (op : M bool)
    (jail : string) (required : bool) (body : Event) (w w1 : World) : Prop :=
  (forall msg, fault body = Some msg ->
     op w = (Raise (IocError msg), log body w1) /\
     trace (op w).2 = trace w ++ [EvTransition required jail; body] /\
     run_state (op w).2 jail = Some required /\
     run_state w jail = Some (negb required)) /\
  (fault body = None -> fault (EvTransition (negb required) jail) = None ->
     (op w).1 = Ok true /\
     trace (op w).2 =
       trace w ++ [EvTransition required jail; body; EvTransition (negb required) jail] /\
     run_state (op w).2 jail = run_state w jail).

(** ** The rest of the plugin *)

(** The try block of [query], lines 24 to 35, on its own. *)
Definition enumerate_jails (fault : Event -> option string) : M (list JailDict) :=
  try_except
    (let! all := ioc_get_all fault in comprehension first_value all)
    (fun _ => Some (logger_debug "iocage failed to fetch jails" ;;; ret [])).

(** The loop of [fstab] that builds [split_list], lines 266 to 268. *)
Definition split_fstab_list (_list : list (Z * string)) : list (Z * list string) :=
  foldl (fun split_list i => dict_set i.1 (PyStr.split_ws i.2) split_list) [] _list.

(** The property write [activate pool] makes for the pool [p]. *)
Definition write_event (pool p : string) : Event :=
  EvZfsSet p prop_active (flag pool p).

(** The call [do_update] makes for one pair of its options. *)
Definition set_event (uuid : string) (plugin : bool) (kv : string * string) : Event :=
  EvSet uuid (kv.1 +:+ "=" +:+ kv.2) plugin.

(** The options [fetch] hands to [iocage.fetch]. *)
Definition fetch_options_sent (options : FetchOptions) : FetchOptions :=
  match fo_name options with
  | Some _ => with_plugins true options
  | None => options
  end.

(** The schema of the options of [exec]: ["host_user"], with its default
    filled in, and the optional ["jail_user"]. *)
Record ExecOptions := mkExecOptions {
  eo_host_user : string;
  eo_jail_user : option string
}.

Section Exec.

(** [iocage.exec(command, host_user, jail_user, return_msg=True)] on the jail
    the handle is bound to, and [bytes.decode("utf-8")], which fails on bytes
    that are not UTF-8. *)
Variable iocage_exec : string -> list string -> string -> option string -> M (list Byte.byte).
Variable decode_utf8 : list Byte.byte -> option string.

Definition exec (jail : string) (command : list string) (options : ExecOptions) : M string :=
  let! r := check_jail_existence jail false in
  let host_user := eo_host_user options in
  let jail_user := eo_jail_user options in
  let command :=
    if Nat.eqb (length command) 1 then ["/bin/sh"; "-c"] ++ command else command in
  let host_user :=
    if truthy_opt jail_user && String.eqb host_user "root" then EmptyString
    else host_user in
  let! msg := iocage_exec r.1 command host_user jail_user in
  match decode_utf8 msg with
  | Some s => ret s
  | None => raise (ValueError "UnicodeDecodeError")
  end.

End Exec.

(** Backends for examples: one that notes nothing and answers with the
    bytes of "ok", and faults on single calls. *)
Definition quiet_exec (uuid : string) (command : list string) (host_user : string)
    (jail_user : option string) : M (list Byte.byte) :=
  ret [Byte.x6f; Byte.x6b].

Definition ascii_decode (bs : list Byte.byte) : option string :=
  Some (string_of_list_byte bs).

Definition fail_on_start (ev : Event) : option string :=
  match ev with
  | EvStart _ => Some "start failed"
  | _ => None
  end.

Definition fail_on_stop (ev : Event) : option string :=
  match ev with
  | EvStop _ => Some "stop failed"
  | _ => None
  end.

Definition fail_on_check (ev : Event) : option string :=
  match ev with
  | EvCheck => Some "no activated pool"
  | _ => None
  end.

Definition fail_on_create (ev : Event) : option string :=
  match ev with
  | EvCreate _ => Some "release missing"
  | _ => None
  end.

Definition fail_on_data (ev : Event) : option string :=
  match ev with
  | EvZfsSet "data" _ _ => Some "pool is read-only"
  | _ => None
  end.

Definition fail_on_mtu (ev : Event) : option string :=
  match ev with
  | EvSet _ "mtu=9000" _ => Some "unknown property"
  | _ => None
  end.

(** The bracket cannot reach the state [required]: the transition's error
    comes out and nothing else has been called. *)
Definition aborted_outcome (fault : Event -> option string) (op : M bool)
    (jail : string) (required : bool) (w : World) : Prop :=
  forall msg, fault (EvTransition required jail) = Some msg ->
    op w = (Raise (IocError msg), log (EvTransition required jail) w).

(** The jail is already in the state the operation needs: the delegated call
    [body] is the only call, and no run state changes. *)
Definition in_state_outcome (fault : Event -> option string) (op : M bool)
    (body : Event) (w : World) : Prop :=
  (op w).1 = match fault body with
             | Some msg => Raise (IocError msg)
             | None => Ok true
             end /\
  trace (op w).2 = trace w ++ [body] /\
  jails (op w).2 = jails w.

(** The body went through and the transition back fails: the operation
    raises that error, with the body's call made and the jail left in the
    state [required]. *)
Definition restore_failure_outcome (fault : Event -> option string) (op : M bool)
    (jail : string) (required : bool) (body : Event) (w : World) : Prop :=
  forall msg, fault body = None ->
    fault (EvTransition (negb required) jail) = Some msg ->
    (op w).1 = Raise (IocError msg) /\
    trace (op w).2 =
      trace w ++ [EvTransition required jail; body; EvTransition (negb required) jail] /\
    run_state (op w).2 jail = Some required.

(** The command [exec] hands to [iocage.exec], lines 320 and 321, and the
    host user, line 323. *)
Definition exec_command (command : list string) : list string :=
  if Nat.eqb (length command) 1 then ["/bin/sh"; "-c"] ++ command else command.

Definition exec_host_user (options : ExecOptions) : string :=
  if truthy_opt (eo_jail_user options) && String.eqb (eo_host_user options) "root"
  then EmptyString else eo_host_user options.

(** A backend for examples that answers with its command, one byte per
    token. *)
Definition counting_exec (uuid : string) (command : list string) (host_user : string)
    (jail_user : option string) : M (list Byte.byte) :=
  ret ((fun _ => Byte.x2e) <$> command).

(** ** Python strings, tried out *)

Example rsplit_patch : PyStr.rsplit_dash_head "11.1-RELEASE-p4" = "11.1-RELEASE".
Proof. reflexivity. Qed.

Example rsplit_plain : PyStr.rsplit_dash_head "11.1-RELEASE" = "11.1".
Proof. reflexivity. Qed.

Example rsplit_nodash : PyStr.rsplit_dash_head "11.1" = "11.1".
Proof. reflexivity. Qed.

Example split_ws_separators :
  PyStr.split_ws
    (String "a" (String "028"%char (String "b" (String "160"%char (String "c" EmptyString)))))
  = ["a"; "b"; "c"].
Proof. reflexivity. Qed.

Example split_ws_ex : PyStr.split_ws " rw,noatime  0 0 " = ["rw,noatime"; "0"; "0"].
Proof. reflexivity. Qed.

(** ** Stepping through a method *)

Lemma bind_ok {A B} (c : M A) (k : A -> M B) w a w' :
  c w = (Ok a, w') -> bind c k w = k a w'.
Proof. intros H. unfold bind. now rewrite H. Qed.

Lemma bind_raise {A B} (c : M A) (k : A -> M B) w e w' :
  c w = (Raise e, w') -> bind c k w = (Raise e, w').
Proof. intros H. unfold bind. now rewrite H. Qed.

Lemma ioc_ok fault ev effect w :
  fault ev = None -> ioc fault ev effect w = (Ok tt, effect (log ev w)).
Proof. intros H. unfold ioc. now rewrite H. Qed.

Lemma ioc_raise fault ev effect w msg :
  fault ev = Some msg -> ioc fault ev effect w = (Raise (IocError msg), log ev w).
Proof. intros H. unfold ioc. now rewrite H. Qed.

Lemma check_jail_existence_found jail skip w j :
  jails w !! jail = Some j ->
  check_jail_existence jail skip w = (Ok (jail, j_path j), w).
Proof.
  intros H. unfold check_jail_existence, try_except, ioc_check_jail_existence.
  now rewrite H.
Qed.

Lemma check_jail_existence_missing jail skip w :
  jails w !! jail = None ->
  check_jail_existence jail skip w = (Raise (NotFoundError jail), w).
Proof.
  intros H. unfold check_jail_existence, try_except, ioc_check_jail_existence.
  now rewrite H.
Qed.

Lemma list_get_jid_found uuid w j :
  jails w !! uuid = Some j -> list_get_jid uuid w = (Ok (j_running j), w).
Proof. intros H. unfold list_get_jid, read. now rewrite H. Qed.

Lemma json_load_found path w c :
  confs w !! path = Some c -> json_load path w = (Ok c, w).
Proof. intros H. unfold json_load. now rewrite H. Qed.

Lemma start_ok fault jail w j :
  jails w !! jail = Some j -> fault (EvStart jail) = None ->
  start fault jail w =
    (Ok true, set_jails (alter (with_running true) jail) (log (EvStart jail) w)).
Proof.
  intros Hj Hf. unfold start.
  rewrite (bind_ok _ _ _ _ _ (check_jail_existence_found jail true w j Hj)).
  simpl. now rewrite (bind_ok _ _ _ _ _ (ioc_ok fault _ _ _ Hf)).
Qed.

Lemma stop_ok fault jail w j :
  jails w !! jail = Some j -> fault (EvStop jail) = None ->
  stop fault jail w =
    (Ok true, set_jails (alter (with_running false) jail) (log (EvStop jail) w)).
Proof.
  intros Hj Hf. unfold stop.
  rewrite (bind_ok _ _ _ _ _ (check_jail_existence_found jail true w j Hj)).
  simpl. now rewrite (bind_ok _ _ _ _ _ (ioc_ok fault _ _ _ Hf)).
Qed.

(** After [iocage.start] or [iocage.stop] the jail is still there, with the
    run state just written. *)
Lemma jails_after_transition b ev jail w j :
  jails w !! jail = Some j ->
  jails (set_jails (alter (with_running b) jail) (log ev w)) !! jail =
    Some (with_running b j).
Proof. intros H. simpl. rewrite lookup_alter_eq. now rewrite H. Qed.

Ltac step_found H :=
  first
    [ rewrite (bind_ok _ _ _ _ _ (check_jail_existence_found _ _ _ _ H))
    | rewrite (bind_ok _ _ _ _ _ (list_get_jid_found _ _ _ H))
    | rewrite (bind_ok _ _ _ _ _ (json_load_found _ _ _ H)) ].

Ltac step_missing H :=
  rewrite (bind_raise _ _ _ _ _ (check_jail_existence_missing _ _ _ H)).

(** ** Identifier resolution *)

(** C6. For an identifier that resolves to no jail, each of Start, Stop,
    Delete, Set-Property ([do_update]), Export and Upgrade fails with the
    "jail not found" error of identifier resolution, and leaves the world as
    it was: in particular nothing is added to the trace of delegated calls. *)
Theorem unknown_jail_not_found fault jail w :
  jails w !! jail = None ->
  start fault jail w = (Raise (NotFoundError jail), w) /\
  stop fault jail w = (Raise (NotFoundError jail), w) /\
  do_delete fault jail w = (Raise (NotFoundError jail), w) /\
  (forall options, do_update fault jail options w = (Raise (NotFoundError jail), w)) /\
  export fault jail w = (Raise (NotFoundError jail), w) /\
  (forall release, upgrade fault jail release w = (Raise (NotFoundError jail), w)).
Proof.
  intros H. repeat split; intros;
    [ unfold start | unfold stop | unfold do_delete | unfold do_update
    | unfold export | unfold upgrade ];
    now step_missing H.
Qed.

Lemma unknown_jail_not_found_witness :
  start no_fault "ghost" demo = (Raise (NotFoundError "ghost"), demo) /\
  stop no_fault "ghost" demo = (Raise (NotFoundError "ghost"), demo) /\
  do_delete no_fault "ghost" demo = (Raise (NotFoundError "ghost"), demo) /\
  (forall options, do_update no_fault "ghost" options demo = (Raise (NotFoundError "ghost"), demo)) /\
  export no_fault "ghost" demo = (Raise (NotFoundError "ghost"), demo) /\
  (forall release, upgrade no_fault "ghost" release demo = (Raise (NotFoundError "ghost"), demo)).
Proof. apply (unknown_jail_not_found no_fault "ghost" demo). reflexivity. Defined.

(** ** Fstab *)

(** C5. For every existing jail and every fstab options value whose action is
    Replace and whose index is absent, [fstab] fails with the validation
    error (Python's [ValueError]) before anything is delegated: the world,
    trace included, is unchanged, so no call ever went out with a defaulted
    index. *)
Theorem fstab_replace_needs_index fault jail options w :
  is_Some (jails w !! jail) ->
  fs_action options = REPLACE ->
  fs_index options = None ->
  fstab fault jail options w = (Raise ValidationError, w).
Proof.
  intros [j Hj] Ha Hi. unfold fstab.
  step_found Hj. now rewrite Ha, Hi.
Qed.

Lemma fstab_replace_needs_index_witness :
  fstab no_fault "web1" (mkFstabOptions REPLACE "/tmp" "/mnt" "nullfs" "ro" "0" "0" None) demo
  = (Raise ValidationError, demo).
Proof.
  apply (fstab_replace_needs_index no_fault "web1"); [ | reflexivity | reflexivity ].
  exists (mkJail "/iocage/jails/web1" false [] ["/tmp /mnt nullfs rw 0 0"]).
  reflexivity.
Defined.

Example fstab_list_demo :
  (fstab no_fault "web1" (mkFstabOptions LIST EmptyString EmptyString EmptyString EmptyString EmptyString EmptyString None) demo).1
  = Ok (FstabListing [(0%Z, ["/tmp"; "/mnt"; "nullfs"; "rw"; "0"; "0"])]).
Proof. reflexivity. Qed.

Example fstab_replace_demo :
  j_fstab <$>
    jails (fstab no_fault "web1"
             (mkFstabOptions REPLACE "/a" "/b" "nullfs" "ro" "0" "0" (Some 0%Z)) demo).2
      !! "web1"
  = Some ["/a /b nullfs ro 0 0"].
Proof. reflexivity. Qed.

(** ** Inventory query *)

Lemma filter_list_nil filters options : filter_list [] filters options = [].
Proof.
  unfold filter_list. simpl.
  destruct (qo_order_by options) as [[attr d]|]; simpl;
    rewrite drop_nil; destruct (qo_limit options); now rewrite ?take_nil.
Qed.

(** C4. When the backend fails while the jails are enumerated, [query] raises
    nothing: the failure is logged and the answer is the filter, sort and
    pagination step applied to no jails, which is the empty sequence. *)
Theorem query_backend_failure fault filters options w msg :
  fault EvGetAll = Some msg ->
  query fault filters options w =
    (Ok (filter_list [] filters (default no_options options)),
     log (EvLogDebug "iocage failed to fetch jails") (log EvGetAll w)) /\
  filter_list [] filters (default no_options options) = [].
Proof.
  intros Hf. split; [ | apply filter_list_nil ].
  unfold query, bind at 1, try_except, ioc_get_all.
  now rewrite (bind_raise _ _ _ _ _ (bind_raise _ _ _ _ _ (ioc_raise fault _ _ _ _ Hf))).
Qed.

Lemma query_backend_failure_witness :
  query fail_on_get_all [Cmp "state" OpEq "up"] None demo =
    (Ok (filter_list [] [Cmp "state" OpEq "up"] (default no_options None)),
     log (EvLogDebug "iocage failed to fetch jails") (log EvGetAll demo)) /\
  filter_list [] [Cmp "state" OpEq "up"] (default no_options None) = [].
Proof.
  apply (query_backend_failure fail_on_get_all [Cmp "state" OpEq "up"] None demo
           "iocage is not activated").
  reflexivity.
Defined.

Example query_demo :
  (query no_fault [Cmp "state" OpEq "up"] None demo).1
  = Ok [[("host_hostuuid", "db1"); ("state", "up"); ("type", "jail");
         ("release", "11.1-RELEASE-p4"); ("basejail", "no")]].
Proof. reflexivity. Qed.

(** ** Pool activation *)

Lemma sweep_lookup pool ps z p k :
  sweep pool ps z !! (p, k) =
    if decide (p ∈ ps /\ k = prop_active) then Some (flag pool p) else z !! (p, k).
Proof.
  revert z. induction ps as [|a ps IH]; intros z.
  - simpl. destruct (decide (p ∈ [] /\ k = prop_active)) as [[H _]|_]; [ | reflexivity ].
    now apply not_elem_of_nil in H.
  - change (sweep pool (a :: ps) z)
      with (sweep pool ps (<[(a, prop_active) := flag pool a]> z)).
    rewrite IH.
    destruct (decide (p ∈ ps /\ k = prop_active)) as [[Hin Hk0]|Hps];
      destruct (decide (p ∈ a :: ps /\ k = prop_active)) as [[Hin' Hk]|Haps];
      try reflexivity.
    + exfalso. apply Haps. split; [ now right | exact Hk0 ].
    + subst k. apply elem_of_cons in Hin' as [->|Hin'].
      * apply lookup_insert_eq.
      * exfalso. apply Hps. now split.
    + apply lookup_insert_ne. intros [= Ha Hk]. apply Haps.
      split; [ rewrite Ha; now left | now symmetry ].
Qed.

Lemma sweep_idempotent pool ps z :
  sweep pool ps (sweep pool ps z) = sweep pool ps z.
Proof.
  apply map_eq. intros [p k]. rewrite sweep_lookup.
  destruct (decide (p ∈ ps /\ k = prop_active)) as [H|H]; [ | reflexivity ].
  rewrite sweep_lookup. now rewrite decide_True.
Qed.

(** The loop of [activate], when no property write fails. *)
Lemma activate_loop fault pool ps w :
  writes_succeed fault ->
  exists w',
    for_each ps
      (fun _pool =>
         if String.eqb _pool pool then
           ioc fault (EvZfsSet _pool prop_active "yes")
               (set_zprops (insert (_pool, prop_active) "yes"))
         else
           ioc fault (EvZfsSet _pool prop_active "no")
               (set_zprops (insert (_pool, prop_active) "no"))) w = (Ok tt, w') /\
    zprops w' = sweep pool ps (zprops w) /\
    pools w' = pools w.
Proof.
  intros Hf. revert w. induction ps as [|a ps IH]; intros w.
  - exists w. now repeat split.
  - cbn [for_each]. unfold bind at 1.
    set (w1 := set_zprops (insert (a, prop_active) (flag pool a))
                 (log (EvZfsSet a prop_active (flag pool a)) w)).
    assert (Hstep :
      (if String.eqb a pool then
         ioc fault (EvZfsSet a prop_active "yes")
             (set_zprops (insert (a, prop_active) "yes"))
       else
         ioc fault (EvZfsSet a prop_active "no")
             (set_zprops (insert (a, prop_active) "no"))) w = (Ok tt, w1)).
    { unfold w1, flag. destruct (String.eqb a pool); now rewrite ioc_ok. }
    rewrite Hstep. destruct (IH w1) as (w' & Hrun & Hz & Hp).
    exists w'. repeat split; [ exact Hrun | now rewrite Hz | now rewrite Hp ].
Qed.

Lemma activate_ok fault pool w :
  writes_succeed fault ->
  (activate fault pool w).1 = Ok true /\
  zprops (activate fault pool w).2 = sweep pool (pools w) (zprops w) /\
  pools (activate fault pool w).2 = pools w.
Proof.
  intros Hf. destruct (activate_loop fault pool (pools w) w Hf) as (w' & Hrun & Hz & Hp).
  assert (E : activate fault pool w = (Ok true, w')).
  { unfold activate.
    rewrite (bind_ok (read pools) _ w (pools w) w eq_refl).
    now rewrite (bind_ok _ _ _ _ _ Hrun). }
  rewrite E. now repeat split.
Qed.

(** C3, as the code has it. Activating a pool that is not among the
    backend's pools does not fail: the call returns [true] (when the property
    writes succeed), and the sweep has run over all pools, writing "no" to
    the active property of each, so that no pool is active. *)
Theorem activate_unknown_pool fault pool w :
  pool ∉ pools w ->
  writes_succeed fault ->
  (activate fault pool w).1 = Ok true /\
  forall p, p ∈ pools w ->
    zprops (activate fault pool w).2 !! (p, prop_active) = Some "no" /\
    active (activate fault pool w).2 p = false.
Proof.
  intros Hnot Hf. destruct (activate_ok fault pool w Hf) as (Hr & Hz & _).
  split; [ exact Hr | ]. intros p Hp.
  assert (Hno : zprops (activate fault pool w).2 !! (p, prop_active) = Some "no").
  { rewrite Hz, sweep_lookup, decide_True by now split.
    unfold flag. destruct (String.eqb_spec p pool) as [->|]; [ now destruct Hnot | reflexivity ]. }
  split; [ exact Hno | ]. unfold active. now rewrite Hno.
Qed.

Lemma activate_unknown_pool_witness :
  (activate no_fault "zroot" demo).1 = Ok true /\
  forall p, p ∈ pools demo ->
    zprops (activate no_fault "zroot" demo).2 !! (p, prop_active) = Some "no" /\
    active (activate no_fault "zroot" demo).2 p = false.
Proof.
  apply (activate_unknown_pool no_fault "zroot" demo).
  - simpl. intros H. repeat (apply elem_of_cons in H as [H|H]; [ discriminate H | ]).
    now apply not_elem_of_nil in H.
  - intros p v. reflexivity.
Defined.

(** C3 as stated fails: with "zroot" not among the pools, [activate] raises
    nothing at all, it returns [true]. *)
Lemma unknown_pool_activation_returns_true :
  ("zroot" ∉ pools demo) /\
  (activate no_fault "zroot" demo).1 = Ok true /\
  (forall e, (activate no_fault "zroot" demo).1 <> Raise e).
Proof.
  split; [ | split; [ reflexivity | intros e; discriminate ] ].
  simpl. intros H. repeat (apply elem_of_cons in H as [H|H]; [ discriminate H | ]).
  now apply not_elem_of_nil in H.
Qed.

(** C7. For a pool [pool] that exists, one call of [activate pool] leaves
    [pool] with its active flag set and every other pool with the flag
    cleared; a second call gives the same property table again. *)
Theorem activate_single_active fault pool w :
  pool ∈ pools w ->
  writes_succeed fault ->
  let w1 := (activate fault pool w).2 in
  let w2 := (activate fault pool w1).2 in
  (activate fault pool w).1 = Ok true /\
  (activate fault pool w1).1 = Ok true /\
  (forall p, p ∈ pools w -> active w1 p = bool_decide (p = pool)) /\
  (forall p, p ∈ pools w -> active w2 p = bool_decide (p = pool)) /\
  (forall p, p ∈ pools w -> p <> pool ->
     zprops w1 !! (p, prop_active) = Some "no" /\
     zprops w2 !! (p, prop_active) = Some "no") /\
  active w1 pool = true /\ active w2 pool = true /\
  zprops w2 = zprops w1.
Proof.
  intros Hin Hf w1 w2.
  destruct (activate_ok fault pool w Hf) as (Hr1 & Hz1 & Hp1).
  destruct (activate_ok fault pool w1 Hf) as (Hr2 & Hz2 & Hp2).
  fold w1 in Hz1, Hp1. fold w2 in Hz2, Hp2.
  assert (Hsame : zprops w2 = zprops w1).
  { rewrite Hz2, Hp1, Hz1. apply sweep_idempotent. }
  assert (Hlook : forall p, p ∈ pools w ->
            zprops w1 !! (p, prop_active) = Some (flag pool p)).
  { intros p Hp. rewrite Hz1, sweep_lookup. now rewrite decide_True. }
  assert (Hact : forall p, p ∈ pools w -> active w1 p = bool_decide (p = pool)).
  { intros p Hp. unfold active. rewrite (Hlook p Hp). unfold flag.
    destruct (String.eqb_spec p pool) as [->|Hne].
    - now rewrite !bool_decide_eq_true_2.
    - rewrite !bool_decide_eq_false_2; [ reflexivity | exact Hne | discriminate ]. }
  assert (Hact2 : forall p, active w2 p = active w1 p).
  { intros p. unfold active. now rewrite Hsame. }
  repeat split.
  - exact Hr1.
  - exact Hr2.
  - exact Hact.
  - intros p Hp. rewrite Hact2. now apply Hact.
  - rewrite (Hlook p H). unfold flag.
    destruct (String.eqb_spec p pool); [ contradiction | reflexivity ].
  - rewrite Hsame, (Hlook p H). unfold flag.
    destruct (String.eqb_spec p pool); [ contradiction | reflexivity ].
  - rewrite (Hact pool Hin). now apply bool_decide_eq_true_2.
  - rewrite Hact2, (Hact pool Hin). now apply bool_decide_eq_true_2.
  - exact Hsame.
Qed.

Lemma activate_single_active_witness :
  let w1 := (activate no_fault "tank" demo).2 in
  let w2 := (activate no_fault "tank" w1).2 in
  (activate no_fault "tank" demo).1 = Ok true /\
  (activate no_fault "tank" w1).1 = Ok true /\
  (forall p, p ∈ pools demo -> active w1 p = bool_decide (p = "tank")) /\
  (forall p, p ∈ pools demo -> active w2 p = bool_decide (p = "tank")) /\
  (forall p, p ∈ pools demo -> p <> "tank" ->
     zprops w1 !! (p, prop_active) = Some "no" /\
     zprops w2 !! (p, prop_active) = Some "no") /\
  active w1 "tank" = true /\ active w2 "tank" = true /\
  zprops w2 = zprops w1.
Proof.
  apply (activate_single_active no_fault "tank" demo).
  - simpl. apply elem_of_cons. now left.
  - intros p v. reflexivity.
Defined.

Example activate_demo :
  map_to_list (zprops (activate no_fault "data" (activate no_fault "tank" demo).2).2)
  = [("tank", prop_active, "no"); ("data", prop_active, "yes")].
Proof. reflexivity. Qed.

(** ** Create and Fetch *)

Lemma ioc_create_trace fault a w :
  trace (ioc_create fault a w).2 = trace w ++ [EvCreate a].
Proof. unfold ioc_create. now destruct (fault (EvCreate a)). Qed.

(** The tail of [create_job], from the call of [iocage.create] on. *)
Lemma create_tail_trace fault a w :
  trace (bind (ioc_create fault a)
              (fun r => if r.1 then raise (CallError r.2) else ret true) w).2
  = trace w ++ [EvCreate a].
Proof.
  unfold bind, ioc_create. now destruct (fault (EvCreate a)).
Qed.

(** [fetch] starts with the dataset check, whatever happens next. *)
Lemma fetch_trace fault o w :
  exists fetched,
    trace (fetch fault o w).2 = trace w ++ EvCheck :: fetched /\
    forallb is_fetch_event fetched = true.
Proof.
  unfold fetch, check_dataset_existence, bind, ioc.
  destruct (fault EvCheck).
  - exists []. now split.
  - match goal with
    | |- context [fault (EvFetch ?o')] => destruct (fault (EvFetch o'));
        exists [EvFetch o']; simpl; now rewrite <- app_assoc
    end.
Qed.

Lemma fetch_eq fault o w :
  fetch fault o w =
    match fault EvCheck with
    | Some msg => (Raise (IocError msg), log EvCheck w)
    | None =>
        match fault (EvFetch (fetch_options_sent o)) with
        | Some msg =>
            (Raise (IocError msg), log (EvFetch (fetch_options_sent o)) (log EvCheck w))
        | None =>
            (Ok true,
             set_dirs (union {[release_dir (iocroot w) (fo_release (fetch_options_sent o))]})
                      (log (EvFetch (fetch_options_sent o)) (log EvCheck w)))
        end
    end.
Proof.
  unfold fetch, check_dataset_existence. fold (fetch_options_sent o).
  destruct (fault EvCheck) as [msg|] eqn:Hc.
  - now rewrite (bind_raise _ _ _ _ _ (ioc_raise fault _ _ w msg Hc)).
  - rewrite (bind_ok _ _ _ _ _ (ioc_ok fault _ _ w Hc)).
    destruct (fault (EvFetch (fetch_options_sent o))) as [msg|] eqn:Hf.
    + now rewrite (bind_raise _ _ _ _ _ (ioc_raise fault _ _ _ msg Hf)).
    + now rewrite (bind_ok _ _ _ _ _ (ioc_ok fault _ _ _ Hf)).
Qed.

(** C8. [create_job] runs [fetch] for the requested release, to its end and
    before [iocage.create] is called, exactly when the release's directory
    is missing and the jail is neither built from a template nor empty: the
    dataset check of [fetch] goes out first, then [iocage.fetch] with the
    requested release and the defaults of the schema, and only then
    [iocage.create].  Otherwise the only call that goes out is
    [iocage.create]. *)
Theorem create_fetches_when_needed fault wait_sync_raises options w :
  let w' := (create_job fault wait_sync_raises options w).2 in
  let requested :=
    mkFetchOptions (co_release options) "download.freebsd.org" "anonymous"
                   "anonymous@" None false []
                   ["MANIFEST"; "base.txz"; "lib32.txz"; "doc.txz"] None in
  let create := EvCreate (create_args options) in
  (needs_fetch options w = true ->
     fo_release requested = co_release options /\
     trace w' =
       trace w ++
         match fault EvCheck, fault (EvFetch requested) with
         | Some _, _ =>
             EvCheck :: (if wait_sync_raises then [] else [create])
         | None, Some _ =>
             EvCheck :: EvFetch requested :: (if wait_sync_raises then [] else [create])
         | None, None => [EvCheck; EvFetch requested; create]
         end /\
     trace (fetch fault requested w).2 =
       trace w ++
         match fault EvCheck with
         | Some _ => [EvCheck]
         | None => [EvCheck; EvFetch requested]
         end) /\
  (needs_fetch options w = false -> trace w' = trace w ++ [create]).
Proof.
  intros w' requested create. subst w' create.
  unfold create_job, needs_fetch, create_args.
  rewrite (bind_ok (read iocroot) _ w (iocroot w) w eq_refl).
  destruct (truthy_opt (co_template options)) eqn:Ht.
  - split; [ rewrite andb_false_r; discriminate | intros _ ].
    rewrite (bind_ok (read _) _ w _ w eq_refl).
    rewrite andb_false_r. simpl when.
    rewrite (bind_ok (ret tt) _ w tt w eq_refl).
    apply create_tail_trace.
  - rewrite (bind_ok (read _) _ w _ w eq_refl).
    destruct (negb (bool_decide (release_dir (iocroot w) (co_release options) ∈ dirs w))
              && negb false && negb (co_empty options)) eqn:Hn.
    + split; [ intros _ | discriminate ].
      split; [ reflexivity | ].
      simpl when. unfold bind at 1, call_sync_wait.
      change (fetch_defaults (co_release options)) with requested.
      rewrite (fetch_eq fault requested w).
      change (fetch_options_sent requested) with requested.
      destruct (fault EvCheck); [ | destruct (fault (EvFetch requested)) ];
        destruct wait_sync_raises; cbn [fst snd];
        rewrite ?create_tail_trace; simpl; rewrite <- ?app_assoc; now split.
    + split; [ discriminate | intros _ ].
      simpl when. rewrite (bind_ok (ret tt) _ w tt w eq_refl).
      apply create_tail_trace.
Qed.

Lemma create_fetches_when_needed_witness :
  let fresh := mkCreateOptions "12.2-RELEASE" (Some EmptyString) None None false false false [] in
  let cached := mkCreateOptions "11.1-RELEASE" None None (Some "web2") true false false [] in
  trace (create_job no_fault true fresh demo).2
    = [EvCheck; EvFetch (fetch_defaults "12.2-RELEASE"); EvCreate (create_args fresh)] /\
  trace (create_job no_fault true cached demo).2 = [EvCreate (create_args cached)].
Proof.
  intros fresh cached. split.
  - apply (proj1 (proj2 (proj1 (create_fetches_when_needed no_fault true fresh demo)
                               eq_refl))).
  - apply (proj2 (create_fetches_when_needed no_fault true cached demo)). reflexivity.
Defined.

Example create_demo_fetches_first :
  trace (create_job no_fault true
           (mkCreateOptions "12.2-RELEASE" (Some EmptyString) None None false false false []) demo).2
  = [EvCheck; EvFetch (fetch_defaults "12.2-RELEASE");
     EvCreate (mkCreateArgs "12.2-RELEASE" [] None (Some EmptyString) false None false false)].
Proof. reflexivity. Qed.

Example create_demo_template_no_fetch :
  trace (create_job no_fault true
           (mkCreateOptions "12.2-RELEASE" (Some "tpl") None None false false false []) demo).2
  = [EvCreate (mkCreateArgs "tpl" [] None (Some "tpl") false None false false)].
Proof. reflexivity. Qed.

(** ** The release handed to the updater *)

Lemma append_assoc_str (a b c : string) : (a +:+ b) +:+ c = a +:+ b +:+ c.
Proof.
  induction a as [|x a IH]; [ reflexivity | ].
  change (String x ((a +:+ b) +:+ c) = String x (a +:+ b +:+ c)).
  now rewrite IH.
Qed.

Lemma no_dash_cons c s :
  PyStr.no_dash (String c s) = negb (Ascii.eqb c PyStr.dash) && PyStr.no_dash s.
Proof. reflexivity. Qed.

Lemma before_last_dash_none s :
  PyStr.no_dash s = true -> PyStr.before_last_dash s = None.
Proof.
  induction s as [|c s IH]; [ reflexivity | ].
  rewrite no_dash_cons. intros [Hc Hs]%andb_prop. simpl.
  rewrite (IH Hs). now destruct (Ascii.eqb c PyStr.dash).
Qed.

Lemma before_last_dash_split x t :
  PyStr.no_dash t = true ->
  PyStr.before_last_dash (x +:+ String PyStr.dash t) = Some x.
Proof.
  intros Ht. induction x as [|c x IH].
  - change (EmptyString +:+ String PyStr.dash t) with (String PyStr.dash t).
    simpl. now rewrite (before_last_dash_none t Ht).
  - change (String c x +:+ String PyStr.dash t)
      with (String c (x +:+ String PyStr.dash t)).
    cbn [PyStr.before_last_dash]. now rewrite IH.
Qed.

Lemma prefix_append s y : String.prefix s (s +:+ y) = true.
Proof.
  induction s as [|c s IH]; [ now destruct y | ].
  change (String c s +:+ y) with (String c (s +:+ y)). simpl.
  destruct (ascii_dec c c); [ exact IH | contradiction ].
Qed.

Lemma contains_prefix sub s :
  String.prefix sub s = true -> PyStr.contains sub s = true.
Proof. intros H. destruct s; cbn [PyStr.contains]; now rewrite H. Qed.

Lemma contains_append sub x y : PyStr.contains sub (x +:+ sub +:+ y) = true.
Proof.
  induction x as [|c x IH].
  - change (EmptyString +:+ sub +:+ y) with (sub +:+ y).
    apply contains_prefix, prefix_append.
  - change (String c x +:+ sub +:+ y) with (String c (x +:+ sub +:+ y)).
    cbn [PyStr.contains]. rewrite IH. apply orb_true_r.
Qed.

(** The last segment goes when what is left still names the channel. *)
Lemma patch_release_strips y s :
  PyStr.no_dash s = true ->
  PyStr.contains "-RELEASE" y = true ->
  patch_release (y +:+ String PyStr.dash s) = y.
Proof.
  intros Hs Hy. unfold patch_release, PyStr.rsplit_dash_head.
  rewrite (before_last_dash_split y s Hs). simpl. now rewrite Hy.
Qed.

(** Otherwise the tag is passed on as it is. *)
Lemma patch_release_keeps y s :
  PyStr.no_dash s = true ->
  PyStr.contains "-RELEASE" y = false ->
  patch_release (y +:+ String PyStr.dash s) = y +:+ String PyStr.dash s.
Proof.
  intros Hs Hy. unfold patch_release, PyStr.rsplit_dash_head.
  rewrite (before_last_dash_split y s Hs). simpl. now rewrite Hy.
Qed.

Lemma patch_release_patch_level X N :
  PyStr.no_dash N = true ->
  patch_release (X +:+ "-RELEASE-p" +:+ N) = X +:+ "-RELEASE".
Proof.
  intros HN.
  replace (X +:+ "-RELEASE-p" +:+ N)
    with ((X +:+ "-RELEASE") +:+ String PyStr.dash ("p" +:+ N))
    by (now rewrite append_assoc_str).
  apply patch_release_strips; [ exact HN | ].
  exact (contains_append "-RELEASE" X EmptyString).
Qed.

Lemma patch_release_plain X :
  PyStr.contains "-RELEASE" X = false ->
  patch_release (X +:+ "-RELEASE") = X +:+ "-RELEASE".
Proof.
  intros HX. exact (patch_release_keeps X "RELEASE" eq_refl HX).
Qed.

Lemma patch_release_retains tag :
  PyStr.contains "-RELEASE" tag = true ->
  PyStr.contains "-RELEASE" (patch_release tag) = true.
Proof.
  intros H. unfold patch_release.
  now destruct (PyStr.contains "-RELEASE" (PyStr.rsplit_dash_head tag)) eqn:E.
Qed.

Lemma patch_release_no_dash tag :
  PyStr.no_dash tag = true -> patch_release tag = tag.
Proof.
  intros H. unfold patch_release, PyStr.rsplit_dash_head.
  rewrite (before_last_dash_none tag H). simpl.
  now destruct (PyStr.contains "-RELEASE" tag).
Qed.

(** ** The run-state bracket *)

Lemma transition_ok fault b jail w j :
  jails w !! jail = Some j -> fault (EvTransition b jail) = None ->
  transition fault b jail w =
    (Ok true, set_jails (alter (with_running b) jail) (log (EvTransition b jail) w)).
Proof. destruct b; [ apply start_ok | apply stop_ok ]. Qed.

Lemma transition_raise fault b jail w j msg :
  jails w !! jail = Some j -> fault (EvTransition b jail) = Some msg ->
  transition fault b jail w = (Raise (IocError msg), log (EvTransition b jail) w).
Proof.
  intros Hj Hf. destruct b; simpl in *; [ unfold start | unfold stop ];
    step_found Hj; simpl; now rewrite (bind_raise _ _ _ _ _ (ioc_raise fault _ _ _ _ Hf)).
Qed.

(** The shape shared by the three operations, when the jail is not in the
    state the operation needs: go to [b], run the delegated call, go back. *)
Lemma bracket_eq fault b jail w j ev effect :
  jails w !! jail = Some j ->
  fault (EvTransition b jail) = None ->
  (forall w', jails (effect w') = jails w') ->
  bind (bind (transition fault b jail) (fun _ => ret true))
       (fun started =>
          bind (ioc fault ev effect)
               (fun _ => bind (when started
                                 (bind (transition fault (negb b) jail) (fun _ => ret tt)))
                              (fun _ => ret true))) w
  = let w1 := set_jails (alter (with_running b) jail) (log (EvTransition b jail) w) in
    match fault ev with
    | Some msg => (Raise (IocError msg), log ev w1)
    | None =>
        let w2 := effect (log ev w1) in
        match fault (EvTransition (negb b) jail) with
        | Some msg => (Raise (IocError msg), log (EvTransition (negb b) jail) w2)
        | None =>
            (Ok true,
             set_jails (alter (with_running (negb b)) jail)
                       (log (EvTransition (negb b) jail) w2))
        end
    end.
Proof.
  intros Hj Hgo Heff. cbv zeta.
  rewrite (bind_ok _ _ _ _ _ (bind_ok _ _ _ _ _ (transition_ok fault b jail w j Hj Hgo))).
  set (w1 := set_jails (alter (with_running b) jail) (log (EvTransition b jail) w)).
  destruct (fault ev) as [msg|] eqn:Hev.
  - now rewrite (bind_raise _ _ _ _ _ (ioc_raise fault ev effect w1 msg Hev)).
  - rewrite (bind_ok _ _ _ _ _ (ioc_ok fault ev effect w1 Hev)).
    assert (Hj2 : jails (effect (log ev w1)) !! jail = Some (with_running b j)).
    { rewrite Heff. unfold w1. simpl. rewrite lookup_alter_eq. now rewrite Hj. }
    unfold when.
    destruct (fault (EvTransition (negb b) jail)) as [msg|] eqn:Hback.
    + now rewrite (bind_raise _ _ _ _ _
                     (bind_raise _ _ _ _ _ (transition_raise fault _ jail _ _ msg Hj2 Hback))).
    + now rewrite (bind_ok _ _ _ _ _
                     (bind_ok _ _ _ _ _ (transition_ok fault _ jail _ _ Hj2 Hback))).
Qed.

(** The same shape when the jail is already in the state needed. *)
Lemma no_bracket_eq fault (restore : M unit) ev effect w :
  bind (ret false)
       (fun started =>
          bind (ioc fault ev effect)
               (fun _ => bind (when started restore) (fun _ => ret true))) w
  = match fault ev with
    | Some msg => (Raise (IocError msg), log ev w)
    | None => (Ok true, effect (log ev w))
    end.
Proof.
  unfold bind at 1, ret at 1.
  destruct (fault ev) as [msg|] eqn:Hev.
  - now rewrite (bind_raise _ _ _ _ _ (ioc_raise fault ev effect w msg Hev)).
  - now rewrite (bind_ok _ _ _ _ _ (ioc_ok fault ev effect w Hev)).
Qed.

Lemma update_body_eq fault uuid c :
  (if negb (String.eqb (c_basejail c) "yes") then
     ioc fault (EvFetchUpdate (patch_release (c_release c)) (Some uuid)) id
   else
     ioc fault (EvFetchUpdate (patch_release (c_release c)) None) id)
  = ioc fault (update_event uuid c) id.
Proof. unfold update_event. now destruct (String.eqb (c_basejail c) "yes"). Qed.

Lemma update_stopped_eq fault jail w j c :
  jails w !! jail = Some j -> confs w !! j_path j = Some c ->
  c_type c = "jail" -> j_running j = false -> fault (EvStart jail) = None ->
  update_to_latest_patch fault jail w =
    let w1 := set_jails (alter (with_running true) jail) (log (EvStart jail) w) in
    match fault (update_event jail c) with
    | Some msg => (Raise (IocError msg), log (update_event jail c) w1)
    | None =>
        let w2 := log (update_event jail c) w1 in
        match fault (EvStop jail) with
        | Some msg => (Raise (IocError msg), log (EvStop jail) w2)
        | None => (Ok true, set_jails (alter (with_running false) jail) (log (EvStop jail) w2))
        end
    end.
Proof.
  intros Hj Hc Ht Hr Hgo. unfold update_to_latest_patch.
  step_found Hj. cbn [fst snd]. step_found Hj. step_found Hc.
  rewrite Ht, Hr. cbn [String.eqb Ascii.eqb Bool.eqb negb]. rewrite update_body_eq.
  exact (bracket_eq fault true jail w j (update_event jail c) id Hj Hgo (fun _ => eq_refl)).
Qed.

Lemma update_running_eq fault jail w j c :
  jails w !! jail = Some j -> confs w !! j_path j = Some c ->
  c_type c = "jail" -> j_running j = true ->
  update_to_latest_patch fault jail w =
    match fault (update_event jail c) with
    | Some msg => (Raise (IocError msg), log (update_event jail c) w)
    | None => (Ok true, log (update_event jail c) w)
    end.
Proof.
  intros Hj Hc Ht Hr. unfold update_to_latest_patch.
  step_found Hj. cbn [fst snd]. step_found Hj. step_found Hc.
  rewrite Ht, Hr. cbn [String.eqb Ascii.eqb Bool.eqb negb]. rewrite update_body_eq.
  apply (no_bracket_eq fault _ (update_event jail c) id w).
Qed.

Lemma upgrade_stopped_eq fault jail release w j c :
  jails w !! jail = Some j -> confs w !! j_path j = Some c ->
  c_type c = "jail" -> j_running j = false -> fault (EvStart jail) = None ->
  let ev := EvUpgradeJail c release (j_path j +:+ "/root") in
  let effect := set_confs (alter (with_release release) (j_path j)) in
  upgrade fault jail release w =
    let w1 := set_jails (alter (with_running true) jail) (log (EvStart jail) w) in
    match fault ev with
    | Some msg => (Raise (IocError msg), log ev w1)
    | None =>
        let w2 := effect (log ev w1) in
        match fault (EvStop jail) with
        | Some msg => (Raise (IocError msg), log (EvStop jail) w2)
        | None => (Ok true, set_jails (alter (with_running false) jail) (log (EvStop jail) w2))
        end
    end.
Proof.
  intros Hj Hc Ht Hr Hgo ev effect. unfold upgrade.
  step_found Hj. cbn [fst snd]. step_found Hj. step_found Hc.
  rewrite Ht, Hr. cbn [String.eqb Ascii.eqb Bool.eqb negb].
  exact (bracket_eq fault true jail w j ev effect Hj Hgo (fun _ => eq_refl)).
Qed.

Lemma export_running_eq fault jail w j :
  jails w !! jail = Some j -> j_running j = true -> fault (EvStop jail) = None ->
  let ev := EvExportJail jail (j_path j) in
  export fault jail w =
    let w1 := set_jails (alter (with_running false) jail) (log (EvStop jail) w) in
    match fault ev with
    | Some msg => (Raise (IocError msg), log ev w1)
    | None =>
        let w2 := log ev w1 in
        match fault (EvStart jail) with
        | Some msg => (Raise (IocError msg), log (EvStart jail) w2)
        | None => (Ok true, set_jails (alter (with_running true) jail) (log (EvStart jail) w2))
        end
    end.
Proof.
  intros Hj Hr Hgo ev. unfold export.
  step_found Hj. cbn [fst snd]. step_found Hj. rewrite Hr.
  exact (bracket_eq fault false jail w j ev id Hj Hgo (fun _ => eq_refl)).
Qed.

Lemma export_stopped_eq fault jail w j :
  jails w !! jail = Some j -> j_running j = false ->
  export fault jail w =
    match fault (EvExportJail jail (j_path j)) with
    | Some msg => (Raise (IocError msg), log (EvExportJail jail (j_path j)) w)
    | None => (Ok true, log (EvExportJail jail (j_path j)) w)
    end.
Proof.
  intros Hj Hr. unfold export.
  step_found Hj. cbn [fst snd]. step_found Hj. rewrite Hr.
  apply (no_bracket_eq fault _ (EvExportJail jail (j_path j)) id w).
Qed.

Lemma bracket_outcome_intro fault (op : M bool) jail required body effect w j :
  jails w !! jail = Some j ->
  j_running j = negb required ->
  (forall w', jails (effect w') = jails w') ->
  (forall w', trace (effect w') = trace w') ->
  op w =
    (let w1 := set_jails (alter (with_running required) jail)
                         (log (EvTransition required jail) w) in
     match fault body with
     | Some msg => (Raise (IocError msg), log body w1)
     | None =>
         let w2 := effect (log body w1) in
         match fault (EvTransition (negb required) jail) with
         | Some msg => (Raise (IocError msg), log (EvTransition (negb required) jail) w2)
         | None =>
             (Ok true,
              set_jails (alter (with_running (negb required)) jail)
                        (log (EvTransition (negb required) jail) w2))
         end
     end) ->
  bracket_outcome fault op jail required body w
    (set_jails (alter (with_running required) jail) (log (EvTransition required jail) w)).
Proof.
  intros Hj Hr Hjails Htrace Hop. cbv zeta in Hop. split.
  - intros msg Hb. rewrite Hop, Hb. split; [ reflexivity | ]. split; [ | split ].
    + simpl. now rewrite <- app_assoc.
    + unfold run_state. simpl. rewrite lookup_alter_eq, Hj. reflexivity.
    + unfold run_state. rewrite Hj. simpl. now rewrite Hr.
  - intros Hb Hback. rewrite Hop, Hb, Hback. split; [ reflexivity | ]. split.
    + simpl. rewrite Htrace. simpl. now rewrite <- !app_assoc.
    + unfold run_state. simpl. rewrite lookup_alter_eq, Hjails. simpl.
      rewrite lookup_alter_eq, Hj. simpl. now rewrite Hr.
Qed.

(** C1, as the code has it. Each bracketed operation, once it has moved
    the jail into the run state it needs, behaves in one of two ways.  If the
    delegated body fails, the body's error comes out at once: no restoring
    transition is made and the jail stays in the state the bracket put it in.
    If the body succeeds (and the restoring transition does), the jail is
    back in its run state from before the operation and the result is
    [true]. *)
Theorem bracket_restores_after_success_only fault jail release w j c :
  jails w !! jail = Some j ->
  confs w !! j_path j = Some c ->
  (c_type c = "jail" -> j_running j = false -> fault (EvStart jail) = None ->
     let w1 := set_jails (alter (with_running true) jail) (log (EvStart jail) w) in
     bracket_outcome fault (update_to_latest_patch fault jail) jail true
                     (update_event jail c) w w1 /\
     bracket_outcome fault (upgrade fault jail release) jail true
                     (EvUpgradeJail c release (j_path j +:+ "/root")) w w1) /\
  (j_running j = true -> fault (EvStop jail) = None ->
     let w1 := set_jails (alter (with_running false) jail) (log (EvStop jail) w) in
     bracket_outcome fault (export fault jail) jail false
                     (EvExportJail jail (j_path j)) w w1).
Proof.
  intros Hj Hc. split.
  - intros Ht Hr Hgo w1. split.
    + apply (bracket_outcome_intro fault _ jail true _ id w j Hj Hr);
        [ reflexivity | reflexivity | ].
      exact (update_stopped_eq fault jail w j c Hj Hc Ht Hr Hgo).
    + apply (bracket_outcome_intro fault _ jail true _
               (set_confs (alter (with_release release) (j_path j))) w j Hj Hr);
        [ reflexivity | reflexivity | ].
      exact (upgrade_stopped_eq fault jail release w j c Hj Hc Ht Hr Hgo).
  - intros Hr Hgo w1.
    apply (bracket_outcome_intro fault _ jail false _ id w j Hj Hr);
      [ reflexivity | reflexivity | ].
    exact (export_running_eq fault jail w j Hj Hr Hgo).
Qed.

Lemma bracket_restores_after_success_only_witness :
  bracket_outcome fail_on_export (export fail_on_export "db1") "db1" false
    (EvExportJail "db1" "/iocage/jails/db1") demo
    (set_jails (alter (with_running false) "db1") (log (EvStop "db1") demo)) /\
  bracket_outcome no_fault (upgrade no_fault "web1" "12.2-RELEASE") "web1" true
    (EvUpgradeJail (mkConf "jail" "11.1-RELEASE" "yes") "12.2-RELEASE"
                   "/iocage/jails/web1/root") demo
    (set_jails (alter (with_running true) "web1") (log (EvStart "web1") demo)).
Proof.
  split.
  - exact (proj2 (bracket_restores_after_success_only fail_on_export "db1" EmptyString demo
                    (mkJail "/iocage/jails/db1" true [] [])
                    (mkConf "jail" "11.1-RELEASE-p4" "no") eq_refl eq_refl)
                 eq_refl eq_refl).
  - exact (proj2 (proj1 (bracket_restores_after_success_only no_fault "web1" "12.2-RELEASE" demo
                           (mkJail "/iocage/jails/web1" false [] ["/tmp /mnt nullfs rw 0 0"])
                           (mkConf "jail" "11.1-RELEASE" "yes") eq_refl eq_refl)
                        eq_refl eq_refl eq_refl)).
Defined.

(** C1 as stated fails. Export of the running jail "db1" with an archive step
    that fails: the bracket has stopped the jail, the error of the body comes
    out, no [start] follows and "db1" is left stopped. *)
Lemma export_failure_leaves_jail_stopped :
  run_state demo "db1" = Some true /\
  (export fail_on_export "db1" demo).1 = Raise (IocError "archive failed") /\
  trace (export fail_on_export "db1" demo).2
    = [EvStop "db1"; EvExportJail "db1" "/iocage/jails/db1"] /\
  run_state (export fail_on_export "db1" demo).2 "db1" = Some false /\
  run_state (export fail_on_export "db1" demo).2 "db1" <> run_state demo "db1".
Proof. repeat split; try reflexivity. discriminate. Qed.

Example upgrade_failure_leaves_jail_running :
  let fault ev := match ev with EvUpgradeJail _ _ _ => Some "upgrade failed" | _ => None end in
  run_state demo "web1" = Some false /\
  (upgrade fault "web1" "12.2-RELEASE" demo).1 = Raise (IocError "upgrade failed") /\
  run_state (upgrade fault "web1" "12.2-RELEASE" demo).2 "web1" = Some true.
Proof. repeat split; reflexivity. Qed.

Example export_success_restarts :
  (export no_fault "db1" demo).1 = Ok true /\
  trace (export no_fault "db1" demo).2
    = [EvStop "db1"; EvExportJail "db1" "/iocage/jails/db1"; EvStart "db1"] /\
  run_state (export no_fault "db1" demo).2 "db1" = Some true.
Proof. repeat split; reflexivity. Qed.

(** ** Jails that are not of kind "jail" *)

(** C2, as the code has it. For a jail whose kind is not "jail",
    Update-to-latest-patch and Upgrade return [false] and leave the world as
    it was: no transition, nothing delegated.  Export has no check of the
    kind: it stops the jail if it runs, exports it, starts it again, and
    returns [true]. *)
Theorem non_jail_kind fault jail release w j c :
  jails w !! jail = Some j ->
  confs w !! j_path j = Some c ->
  c_type c <> "jail" ->
  update_to_latest_patch fault jail w = (Ok false, w) /\
  upgrade fault jail release w = (Ok false, w) /\
  (fault (EvExportJail jail (j_path j)) = None ->
   fault (EvStop jail) = None -> fault (EvStart jail) = None ->
   (export fault jail w).1 = Ok true /\
   trace (export fault jail w).2 =
     trace w ++
       (if j_running j
        then [EvStop jail; EvExportJail jail (j_path j); EvStart jail]
        else [EvExportJail jail (j_path j)])).
Proof.
  intros Hj Hc Ht.
  assert (Hne : String.eqb (c_type c) "jail" = false) by now apply String.eqb_neq.
  split; [ | split ].
  - unfold update_to_latest_patch.
    step_found Hj. cbn [fst snd]. step_found Hj. step_found Hc. now rewrite Hne.
  - unfold upgrade.
    step_found Hj. cbn [fst snd]. step_found Hj. step_found Hc. now rewrite Hne.
  - intros Hbody Hstop Hstart. destruct (j_running j) eqn:Hr.
    + rewrite (export_running_eq fault jail w j Hj Hr Hstop). cbv zeta.
      rewrite Hbody, Hstart. simpl. split; [ reflexivity | now rewrite <- !app_assoc ].
    + rewrite (export_stopped_eq fault jail w j Hj Hr), Hbody. now split.
Qed.

Lemma non_jail_kind_witness :
  update_to_latest_patch no_fault "tpl" demo = (Ok false, demo) /\
  upgrade no_fault "tpl" "12.2-RELEASE" demo = (Ok false, demo) /\
  (export no_fault "tpl" demo).1 = Ok true /\
  trace (export no_fault "tpl" demo).2 = [EvExportJail "tpl" "/iocage/jails/tpl"].
Proof.
  destruct (non_jail_kind no_fault "tpl" "12.2-RELEASE" demo
              (mkJail "/iocage/jails/tpl" false [] [])
              (mkConf "template" "11.1-RELEASE" "no") eq_refl eq_refl)
    as (Hupdate & Hupgrade & Hexport).
  - discriminate.
  - destruct (Hexport eq_refl eq_refl eq_refl) as [Hres Htrace].
    repeat split; assumption.
Defined.

(** C2 as stated fails for Export: on the template "tpl" it does not answer
    [false], it delegates the export and answers [true]. *)
Lemma export_of_template_is_performed :
  c_type <$> confs demo !! "/iocage/jails/tpl" = Some "template" /\
  export no_fault "tpl" demo
    = (Ok true, log (EvExportJail "tpl" "/iocage/jails/tpl") demo) /\
  (export no_fault "tpl" demo).1 <> Ok false.
Proof. repeat split; try reflexivity. discriminate. Qed.

(** ** Update to the latest patch level *)

Lemma updater_releases_snoc t ev :
  updater_releases (t ++ [ev]) =
    updater_releases t ++
      match ev with
      | EvFetchUpdate r _ => [r]
      | _ => []
      end.
Proof. unfold updater_releases. rewrite omap_app. now destruct ev. Qed.

Lemma update_delegates fault jail w j c :
  jails w !! jail = Some j ->
  confs w !! j_path j = Some c ->
  c_type c = "jail" ->
  (j_running j = false -> fault (EvStart jail) = None) ->
  updater_releases (trace (update_to_latest_patch fault jail w).2)
    = updater_releases (trace w) ++ [patch_release (c_release c)].
Proof.
  intros Hj Hc Ht Hgo. destruct (j_running j) eqn:Hr.
  - rewrite (update_running_eq fault jail w j c Hj Hc Ht Hr).
    destruct (fault (update_event jail c)); simpl; now rewrite updater_releases_snoc.
  - rewrite (update_stopped_eq fault jail w j c Hj Hc Ht Hr (Hgo eq_refl)). cbv zeta.
    destruct (fault (update_event jail c)); [ | destruct (fault (EvStop jail)) ];
      simpl; rewrite !updater_releases_snoc; simpl; now rewrite ?app_nil_r.
Qed.

(** C9, as the code has it. [update_to_latest_patch] hands the external
    updater one release, computed from the configured tag, and nothing is
    ever appended.  When the tag without its last dash-separated segment
    still holds "-RELEASE", that shorter tag is handed over; otherwise the
    tag goes out as it is: a tag without a dash, and a tag whose part before
    the last dash does not hold "-RELEASE".  So "X-RELEASE-pN" gives
    "X-RELEASE" when [N] has no dash, "X-RELEASE" gives "X-RELEASE" when [X]
    does not itself hold "-RELEASE", and a "-RELEASE" in the tag is always
    still in what is handed over. *)
Theorem update_delegates_normalized_release fault jail w j c :
  jails w !! jail = Some j ->
  confs w !! j_path j = Some c ->
  c_type c = "jail" ->
  (j_running j = false -> fault (EvStart jail) = None) ->
  let delegated := updater_releases (trace (update_to_latest_patch fault jail w).2) in
  delegated = updater_releases (trace w) ++ [patch_release (c_release c)] /\
  (forall X N, PyStr.no_dash N = true -> c_release c = X +:+ "-RELEASE-p" +:+ N ->
     delegated = updater_releases (trace w) ++ [X +:+ "-RELEASE"]) /\
  (forall X, PyStr.contains "-RELEASE" X = false -> c_release c = X +:+ "-RELEASE" ->
     delegated = updater_releases (trace w) ++ [X +:+ "-RELEASE"]) /\
  (PyStr.contains "-RELEASE" (c_release c) = true ->
     PyStr.contains "-RELEASE" (patch_release (c_release c)) = true) /\
  (forall y s, PyStr.no_dash s = true -> PyStr.contains "-RELEASE" y = true ->
     c_release c = y +:+ String PyStr.dash s ->
     delegated = updater_releases (trace w) ++ [y]) /\
  (forall y s, PyStr.no_dash s = true -> PyStr.contains "-RELEASE" y = false ->
     c_release c = y +:+ String PyStr.dash s ->
     delegated = updater_releases (trace w) ++ [c_release c]) /\
  (PyStr.no_dash (c_release c) = true ->
     delegated = updater_releases (trace w) ++ [c_release c]).
Proof.
  intros Hj Hc Ht Hgo delegated.
  pose proof (update_delegates fault jail w j c Hj Hc Ht Hgo) as Hd.
  fold delegated in Hd. repeat split.
  - exact Hd.
  - intros X N HN Hrel. rewrite Hd, Hrel. now rewrite patch_release_patch_level.
  - intros X HX Hrel. rewrite Hd, Hrel. now rewrite patch_release_plain.
  - apply patch_release_retains.
  - intros y s Hs Hy Hrel. rewrite Hd, Hrel. now rewrite patch_release_strips.
  - intros y s Hs Hy Hrel. rewrite Hd, Hrel. now rewrite patch_release_keeps.
  - intros Hno. rewrite Hd. now rewrite patch_release_no_dash.
Qed.

Lemma update_delegates_normalized_release_witness :
  updater_releases (trace (update_to_latest_patch no_fault "db1" demo).2) = ["11.1-RELEASE"] /\
  updater_releases (trace (update_to_latest_patch no_fault "web1" demo).2) = ["11.1-RELEASE"].
Proof.
  split.
  - apply (proj1 (proj2 (update_delegates_normalized_release no_fault "db1" demo
                           (mkJail "/iocage/jails/db1" true [] [])
                           (mkConf "jail" "11.1-RELEASE-p4" "no")
                           eq_refl eq_refl eq_refl (fun _ => eq_refl)))
             "11.1" "4" eq_refl eq_refl).
  - apply (proj1 (proj2 (proj2 (update_delegates_normalized_release no_fault "web1" demo
                           (mkJail "/iocage/jails/web1" false [] ["/tmp /mnt nullfs rw 0 0"])
                           (mkConf "jail" "11.1-RELEASE" "yes")
                           eq_refl eq_refl eq_refl (fun _ => eq_refl))))
             "11.1" eq_refl eq_refl).
Defined.

(** C9 as stated fails: not every configured release comes out with its patch
    suffix removed.  With the tag "12.0-CURRENT-p3" the updater is handed the
    tag as it is, and with "11.1-RELEASE-p4-p5" it is handed
    "11.1-RELEASE-p4"; neither is the tag without its patch level. *)
Lemma update_keeps_patch_suffix :
  let current :=
    set_confs (insert "/iocage/jails/db1" (mkConf "jail" "12.0-CURRENT-p3" "no")) demo in
  let twice :=
    set_confs (insert "/iocage/jails/db1" (mkConf "jail" "11.1-RELEASE-p4-p5" "no")) demo in
  updater_releases (trace (update_to_latest_patch no_fault "db1" current).2)
    = ["12.0-CURRENT-p3"] /\
  updater_releases (trace (update_to_latest_patch no_fault "db1" current).2)
    <> ["12.0-CURRENT"] /\
  updater_releases (trace (update_to_latest_patch no_fault "db1" twice).2)
    = ["11.1-RELEASE-p4"] /\
  updater_releases (trace (update_to_latest_patch no_fault "db1" twice).2)
    <> ["11.1-RELEASE"].
Proof. repeat split; try reflexivity; discriminate. Qed.

Example patch_release_other_channels :
  patch_release "11.1-STABLE" = "11.1-STABLE" /\
  patch_release "12.0-CURRENT" = "12.0-CURRENT" /\
  patch_release "11.1" = "11.1".
Proof. repeat split; reflexivity. Qed.

(** ** Listing resources *)

Lemma dash_to_none_not_dash elem : dash_to_none elem <> Some "-".
Proof.
  unfold dash_to_none. destruct (decide (elem = Some "-")); [ discriminate | assumption ].
Qed.

(** C10, as the code has it. For plugins, local or remote, every cell of
    every row comes back with "-" replaced by [None], so that no "-" is left.
    For releases and templates the list of the backend is returned as it
    is. *)
Theorem list_resource_normalizes_plugins fault remote w :
  fault EvCheck = None ->
  (list_resource fault PLUGIN remote w).1
    = Ok (Row <$> (fmap dash_to_none <$> (if remote then plugins_remote w else plugins_local w))) /\
  (forall rows cells,
     (list_resource fault PLUGIN remote w).1 = Ok rows ->
     Row cells ∈ rows -> Some "-" ∉ cells) /\
  (list_resource fault TEMPLATE remote w).1 = Ok (Row <$> templates w) /\
  (list_resource fault RELEASE remote w).1
    = Ok (Name <$> (if remote then releases_remote w else releases_local w)).
Proof.
  intros Hf.
  assert (Hplugin : (list_resource fault PLUGIN remote w).1
    = Ok (Row <$> (fmap dash_to_none <$>
                     (if remote then plugins_remote w else plugins_local w)))).
  { unfold list_resource, check_dataset_existence.
    rewrite (bind_ok _ _ _ _ _ (ioc_ok fault EvCheck id w Hf)). now destruct remote. }
  repeat split.
  - exact Hplugin.
  - intros rows cells Hrows Hin Hdash. rewrite Hplugin in Hrows.
    injection Hrows as <-.
    apply list_elem_of_fmap in Hin as (row' & [= ->] & Hin).
    apply list_elem_of_fmap in Hin as (row & -> & _).
    apply list_elem_of_fmap in Hdash as (elem & Helem & _).
    now apply (dash_to_none_not_dash elem).
  - unfold list_resource, check_dataset_existence.
    now rewrite (bind_ok _ _ _ _ _ (ioc_ok fault EvCheck id w Hf)).
  - unfold list_resource, check_dataset_existence.
    rewrite (bind_ok _ _ _ _ _ (ioc_ok fault EvCheck id w Hf)). now destruct remote.
Qed.

Lemma list_resource_normalizes_plugins_witness :
  (list_resource no_fault PLUGIN false demo).1 = Ok [Row [None; Some "plex"]] /\
  (list_resource no_fault RELEASE true demo).1 = Ok [Name "11.1-RELEASE"; Name "12.2-RELEASE"].
Proof.
  split.
  - exact (proj1 (list_resource_normalizes_plugins no_fault false demo eq_refl)).
  - exact (proj2 (proj2 (proj2 (list_resource_normalizes_plugins no_fault true demo eq_refl)))).
Defined.

(** C10 as stated fails for templates: the "-" of the backend comes back as
    it is. *)
Lemma list_resource_template_keeps_dash :
  (list_resource no_fault TEMPLATE false demo).1
    = Ok [Row [Some "-"; Some "tpl"; Some "off"]] /\
  Some "-" ∈ [Some "-"; Some "tpl"; Some "off"].
Proof. split; [ reflexivity | apply elem_of_cons; now left ]. Qed.

(** * More of the plugin *)

(** ** The normalized release, for every tag *)

Lemma before_last_dash_some s p :
  PyStr.before_last_dash s = Some p ->
  exists t, s = p +:+ String PyStr.dash t /\ PyStr.no_dash t = true.
Proof.
  revert p. induction s as [|c s IH]; intros p; [ discriminate | ].
  cbn [PyStr.before_last_dash].
  destruct (PyStr.before_last_dash s) as [q|] eqn:Hq.
  - intros [= <-]. destruct (IH q eq_refl) as (t & -> & Ht).
    exists t. split; [ reflexivity | exact Ht ].
  - destruct (Ascii.eqb c PyStr.dash) eqn:Hc; [ | discriminate ].
    intros [= <-]. apply Ascii.eqb_eq in Hc as ->.
    exists s. split; [ reflexivity | ].
    clear IH. induction s as [|d s IHs]; [ reflexivity | ].
    cbn [PyStr.before_last_dash] in Hq. rewrite no_dash_cons.
    destruct (PyStr.before_last_dash s); [ discriminate | ].
    destruct (Ascii.eqb d PyStr.dash); [ discriminate | ].
    now rewrite IHs.
Qed.

Lemma prefix_app_l sub s t :
  String.prefix sub s = true -> String.prefix sub (s +:+ t) = true.
Proof.
  revert sub. induction s as [|c s IH]; intros sub.
  - destruct sub; [ intros _; now destruct t | discriminate ].
  - change (String c s +:+ t) with (String c (s +:+ t)).
    destruct sub as [|a sub]; [ reflexivity | ]. simpl.
    destruct (ascii_dec a c); [ apply IH | discriminate ].
Qed.

Lemma contains_app_l sub s t :
  PyStr.contains sub s = true -> PyStr.contains sub (s +:+ t) = true.
Proof.
  induction s as [|c s IH].
  - cbn [PyStr.contains]. rewrite orb_false_r. intros H.
    apply contains_prefix. now apply (prefix_app_l sub EmptyString t).
  - cbn [PyStr.contains]. intros [H|H]%orb_prop.
    + apply contains_prefix. now apply prefix_app_l.
    + change (String c s +:+ t) with (String c (s +:+ t)). cbn [PyStr.contains].
      rewrite (IH H). apply orb_true_r.
Qed.

(** X1. Whatever the configured tag, the release handed to the updater is
    either the tag itself, or the tag without its last dash-separated
    segment, and then what is left still holds "-RELEASE".  Nothing is ever
    appended. *)
Theorem patch_release_shape tag :
  patch_release tag = tag \/
  exists s, tag = patch_release tag +:+ String PyStr.dash s /\
            PyStr.no_dash s = true /\
            PyStr.contains "-RELEASE" (patch_release tag) = true.
Proof.
  unfold patch_release, PyStr.rsplit_dash_head.
  destruct (PyStr.before_last_dash tag) as [p|] eqn:Hp; simpl.
  - destruct (PyStr.contains "-RELEASE" p) eqn:Hc; [ right | now left ].
    destruct (before_last_dash_some tag p Hp) as (t & Htag & Ht).
    exists t. now repeat split.
  - left. now destruct (PyStr.contains "-RELEASE" tag).
Qed.

(** X2. A tag that does not hold "-RELEASE" is handed to the updater as it
    is. *)
Theorem patch_release_other_channel tag :
  PyStr.contains "-RELEASE" tag = false -> patch_release tag = tag.
Proof.
  intros Hno. destruct (patch_release_shape tag) as [H|(s & Htag & _ & Hc)];
    [ exact H | ].
  apply (contains_app_l _ _ (String PyStr.dash s)) in Hc.
  rewrite <- Htag in Hc. congruence.
Qed.

Lemma patch_release_other_channel_witness :
  patch_release "12.0-CURRENT-p3" = "12.0-CURRENT-p3".
Proof. apply patch_release_other_channel. reflexivity. Defined.

(** ** The bracket, when a transition fails or is not needed *)

Lemma bracket_abort_eq {B} fault b jail w j msg (k : bool -> M B) :
  jails w !! jail = Some j ->
  fault (EvTransition b jail) = Some msg ->
  bind (bind (transition fault b jail) (fun _ => ret true)) k w
  = (Raise (IocError msg), log (EvTransition b jail) w).
Proof.
  intros Hj Hf.
  now rewrite (bind_raise _ _ _ _ _
                 (bind_raise _ _ _ _ _ (transition_raise fault b jail w j msg Hj Hf))).
Qed.

(** X3. When the transition into the needed run state fails, the operation
    raises that error and has called nothing else: no update, upgrade or
    export goes out, and the jail's record is untouched. *)
Theorem transition_failure_aborts fault jail release w j c :
  jails w !! jail = Some j ->
  confs w !! j_path j = Some c ->
  (c_type c = "jail" -> j_running j = false ->
     aborted_outcome fault (update_to_latest_patch fault jail) jail true w /\
     aborted_outcome fault (upgrade fault jail release) jail true w) /\
  (j_running j = true ->
     aborted_outcome fault (export fault jail) jail false w).
Proof.
  intros Hj Hc. split.
  - intros Ht Hr. split; intros msg Hf.
    + unfold update_to_latest_patch.
      step_found Hj. cbn [fst snd]. step_found Hj. step_found Hc.
      rewrite Ht, Hr. cbn [String.eqb Ascii.eqb Bool.eqb negb].
      exact (bracket_abort_eq fault true jail w j msg _ Hj Hf).
    + unfold upgrade.
      step_found Hj. cbn [fst snd]. step_found Hj. step_found Hc.
      rewrite Ht, Hr. cbn [String.eqb Ascii.eqb Bool.eqb negb].
      exact (bracket_abort_eq fault true jail w j msg _ Hj Hf).
  - intros Hr msg Hf. unfold export.
    step_found Hj. cbn [fst snd]. step_found Hj. rewrite Hr.
    exact (bracket_abort_eq fault false jail w j msg _ Hj Hf).
Qed.

Lemma transition_failure_aborts_witness :
  upgrade fail_on_start "web1" "12.2-RELEASE" demo
    = (Raise (IocError "start failed"), log (EvStart "web1") demo) /\
  export fail_on_stop "db1" demo
    = (Raise (IocError "stop failed"), log (EvStop "db1") demo).
Proof.
  split.
  - exact (proj2 (proj1 (transition_failure_aborts fail_on_start "web1" "12.2-RELEASE" demo
                           (mkJail "/iocage/jails/web1" false [] ["/tmp /mnt nullfs rw 0 0"])
                           (mkConf "jail" "11.1-RELEASE" "yes") eq_refl eq_refl)
                        eq_refl eq_refl) "start failed" eq_refl).
  - exact (proj2 (transition_failure_aborts fail_on_stop "db1" EmptyString demo
                    (mkJail "/iocage/jails/db1" true [] [])
                    (mkConf "jail" "11.1-RELEASE-p4" "no") eq_refl eq_refl)
                 eq_refl "stop failed" eq_refl).
Defined.

Lemma upgrade_running_eq fault jail release w j c :
  jails w !! jail = Some j -> confs w !! j_path j = Some c ->
  c_type c = "jail" -> j_running j = true ->
  let ev := EvUpgradeJail c release (j_path j +:+ "/root") in
  upgrade fault jail release w =
    match fault ev with
    | Some msg => (Raise (IocError msg), log ev w)
    | None => (Ok true, set_confs (alter (with_release release) (j_path j)) (log ev w))
    end.
Proof.
  intros Hj Hc Ht Hr ev. unfold upgrade.
  step_found Hj. cbn [fst snd]. step_found Hj. step_found Hc.
  rewrite Ht, Hr. cbn [String.eqb Ascii.eqb Bool.eqb negb].
  apply (no_bracket_eq fault _ ev _ w).
Qed.

(** X4. When the jail is already in the run state the operation needs
    (running for update and upgrade, stopped for export), no start and no
    stop is issued: the delegated call is the only one, its failure is the
    operation's failure, and the jails are as they were. *)
Theorem no_transition_when_in_state fault jail release w j c :
  jails w !! jail = Some j ->
  confs w !! j_path j = Some c ->
  (c_type c = "jail" -> j_running j = true ->
     in_state_outcome fault (update_to_latest_patch fault jail) (update_event jail c) w /\
     in_state_outcome fault (upgrade fault jail release)
                      (EvUpgradeJail c release (j_path j +:+ "/root")) w) /\
  (j_running j = false ->
     in_state_outcome fault (export fault jail) (EvExportJail jail (j_path j)) w).
Proof.
  intros Hj Hc. unfold in_state_outcome. split.
  - intros Ht Hr. split.
    + rewrite (update_running_eq fault jail w j c Hj Hc Ht Hr).
      now destruct (fault (update_event jail c)).
    + rewrite (upgrade_running_eq fault jail release w j c Hj Hc Ht Hr).
      now destruct (fault (EvUpgradeJail c release (j_path j +:+ "/root"))).
  - intros Hr. rewrite (export_stopped_eq fault jail w j Hj Hr).
    now destruct (fault (EvExportJail jail (j_path j))).
Qed.

Lemma no_transition_when_in_state_witness :
  in_state_outcome no_fault (update_to_latest_patch no_fault "db1")
    (EvFetchUpdate "11.1-RELEASE" (Some "db1")) demo /\
  in_state_outcome fail_on_export (export fail_on_export "web1")
    (EvExportJail "web1" "/iocage/jails/web1") demo.
Proof.
  split.
  - exact (proj1 (proj1 (no_transition_when_in_state no_fault "db1" EmptyString demo
                           (mkJail "/iocage/jails/db1" true [] [])
                           (mkConf "jail" "11.1-RELEASE-p4" "no") eq_refl eq_refl)
                        eq_refl eq_refl)).
  - exact (proj2 (no_transition_when_in_state fail_on_export "web1" EmptyString demo
                    (mkJail "/iocage/jails/web1" false [] ["/tmp /mnt nullfs rw 0 0"])
                    (mkConf "jail" "11.1-RELEASE" "yes") eq_refl eq_refl)
                 eq_refl).
Defined.

Lemma restore_failure_intro fault (op : M bool) jail required body effect w j :
  jails w !! jail = Some j ->
  (forall w', jails (effect w') = jails w') ->
  (forall w', trace (effect w') = trace w') ->
  op w =
    (let w1 := set_jails (alter (with_running required) jail)
                         (log (EvTransition required jail) w) in
     match fault body with
     | Some msg => (Raise (IocError msg), log body w1)
     | None =>
         let w2 := effect (log body w1) in
         match fault (EvTransition (negb required) jail) with
         | Some msg => (Raise (IocError msg), log (EvTransition (negb required) jail) w2)
         | None =>
             (Ok true,
              set_jails (alter (with_running (negb required)) jail)
                        (log (EvTransition (negb required) jail) w2))
         end
     end) ->
  restore_failure_outcome fault op jail required body w.
Proof.
  intros Hj Hjails Htrace Hop msg Hb Hback. cbv zeta in Hop.
  rewrite Hop, Hb, Hback. split; [ reflexivity | ]. split.
  - simpl. rewrite Htrace. simpl. now rewrite <- !app_assoc.
  - unfold run_state. simpl. rewrite Hjails. simpl.
    now rewrite lookup_alter_eq, Hj.
Qed.

(** X5. When the delegated call went through and the transition back then
    fails, the operation raises the error of that transition: the update,
    upgrade or export has been made all the same, and the jail is left in the
    run state the bracket put it in. *)
Theorem restore_failure_is_raised fault jail release w j c :
  jails w !! jail = Some j ->
  confs w !! j_path j = Some c ->
  (c_type c = "jail" -> j_running j = false -> fault (EvStart jail) = None ->
     restore_failure_outcome fault (update_to_latest_patch fault jail) jail true
                             (update_event jail c) w /\
     restore_failure_outcome fault (upgrade fault jail release) jail true
                             (EvUpgradeJail c release (j_path j +:+ "/root")) w) /\
  (j_running j = true -> fault (EvStop jail) = None ->
     restore_failure_outcome fault (export fault jail) jail false
                             (EvExportJail jail (j_path j)) w).
Proof.
  intros Hj Hc. split.
  - intros Ht Hr Hgo. split.
    + apply (restore_failure_intro fault _ jail true _ id w j Hj);
        [ reflexivity | reflexivity | ].
      exact (update_stopped_eq fault jail w j c Hj Hc Ht Hr Hgo).
    + apply (restore_failure_intro fault _ jail true _
               (set_confs (alter (with_release release) (j_path j))) w j Hj);
        [ reflexivity | reflexivity | ].
      exact (upgrade_stopped_eq fault jail release w j c Hj Hc Ht Hr Hgo).
  - intros Hr Hgo.
    apply (restore_failure_intro fault _ jail false _ id w j Hj);
      [ reflexivity | reflexivity | ].
    exact (export_running_eq fault jail w j Hj Hr Hgo).
Qed.

Lemma restore_failure_is_raised_witness :
  (upgrade fail_on_stop "web1" "12.2-RELEASE" demo).1 = Raise (IocError "stop failed") /\
  run_state (upgrade fail_on_stop "web1" "12.2-RELEASE" demo).2 "web1" = Some true /\
  (export fail_on_start "db1" demo).1 = Raise (IocError "start failed") /\
  run_state (export fail_on_start "db1" demo).2 "db1" = Some false.
Proof.
  destruct (proj2 (proj1 (restore_failure_is_raised fail_on_stop "web1" "12.2-RELEASE" demo
                            (mkJail "/iocage/jails/web1" false [] ["/tmp /mnt nullfs rw 0 0"])
                            (mkConf "jail" "11.1-RELEASE" "yes") eq_refl eq_refl)
                         eq_refl eq_refl eq_refl) "stop failed" eq_refl eq_refl)
    as (Hup & _ & Hup_state).
  destruct (proj2 (restore_failure_is_raised fail_on_start "db1" EmptyString demo
                     (mkJail "/iocage/jails/db1" true [] [])
                     (mkConf "jail" "11.1-RELEASE-p4" "no") eq_refl eq_refl)
                  eq_refl eq_refl "start failed" eq_refl eq_refl)
    as (Hex & _ & Hex_state).
  repeat split; assumption.
Defined.

(** ** The sweep of [activate], call by call *)

Lemma for_each_ext {A} (xs : list A) (f g : A -> M unit) :
  (forall x, f x = g x) -> for_each xs f = for_each xs g.
Proof.
  intros H. induction xs as [|x xs IH]; [ reflexivity | ].
  cbn [for_each]. now rewrite H, IH.
Qed.

Lemma activate_eq fault pool w :
  activate fault pool w =
    bind (for_each (pools w)
            (fun p => ioc fault (write_event pool p)
                          (set_zprops (insert (p, prop_active) (flag pool p)))))
         (fun _ => ret true) w.
Proof.
  unfold activate. rewrite (bind_ok (read pools) _ w (pools w) w eq_refl).
  rewrite (for_each_ext (pools w) _
             (fun p => ioc fault (write_event pool p)
                           (set_zprops (insert (p, prop_active) (flag pool p)))));
    [ reflexivity | ].
  intros p. unfold write_event, flag. now destruct (String.eqb p pool).
Qed.

Lemma sweep_snoc pool ps p z :
  sweep pool (ps ++ [p]) z = <[(p, prop_active) := flag pool p]> (sweep pool ps z).
Proof. unfold sweep. now rewrite foldl_app. Qed.

Lemma sweep_run fault pool ps w :
  (forall p, p ∈ ps -> fault (write_event pool p) = None) ->
  exists w',
    for_each ps
      (fun p => ioc fault (write_event pool p)
                    (set_zprops (insert (p, prop_active) (flag pool p)))) w = (Ok tt, w') /\
    zprops w' = sweep pool ps (zprops w) /\
    trace w' = trace w ++ (write_event pool <$> ps) /\
    jails w' = jails w /\ confs w' = confs w /\ pools w' = pools w.
Proof.
  revert w. induction ps as [|a ps IH]; intros w Hf.
  - exists w. simpl. now rewrite app_nil_r.
  - cbn [for_each].
    rewrite (bind_ok _ _ _ _ _ (ioc_ok fault _ _ w (Hf a ltac:(now left)))).
    destruct (IH (set_zprops (insert (a, prop_active) (flag pool a))
                             (log (write_event pool a) w)))
      as (w' & Hrun & Hz & Ht & Hj & Hc & Hp).
    { intros p Hp. apply Hf. now right. }
    exists w'. split; [ exact Hrun | ]. rewrite Hz, Ht, Hj, Hc, Hp. simpl.
    now rewrite <- app_assoc.
Qed.

Lemma sweep_run_fail fault pool pre q post w msg :
  (forall p, p ∈ pre -> fault (write_event pool p) = None) ->
  fault (write_event pool q) = Some msg ->
  exists w',
    for_each (pre ++ q :: post)
      (fun p => ioc fault (write_event pool p)
                    (set_zprops (insert (p, prop_active) (flag pool p)))) w
      = (Raise (IocError msg), w') /\
    zprops w' = sweep pool pre (zprops w) /\
    trace w' = trace w ++ (write_event pool <$> pre) ++ [write_event pool q].
Proof.
  revert w. induction pre as [|a pre IH]; intros w Hf Hq.
  - exists (log (write_event pool q) w). cbn [app for_each].
    now rewrite (bind_raise _ _ _ _ _ (ioc_raise fault _ _ w msg Hq)).
  - cbn [app for_each].
    rewrite (bind_ok _ _ _ _ _ (ioc_ok fault _ _ w (Hf a ltac:(now left)))).
    destruct (IH (set_zprops (insert (a, prop_active) (flag pool a))
                             (log (write_event pool a) w)))
      as (w' & Hrun & Hz & Ht); [ intros p Hp; apply Hf; now right | exact Hq | ].
    exists w'. split; [ exact Hrun | ]. rewrite Hz, Ht. simpl.
    now rewrite <- app_assoc.
Qed.

(** X6. When the writes succeed, [activate] makes one property write per
    pool, in the order of the pool list, "yes" for the named pool and "no"
    for the others; it returns [true], and touches neither another property,
    nor a dataset that is not a pool, nor the jails. *)
Theorem activate_writes_each_pool_once fault pool w :
  (forall p, p ∈ pools w -> fault (write_event pool p) = None) ->
  let w' := (activate fault pool w).2 in
  (activate fault pool w).1 = Ok true /\
  trace w' = trace w ++ (write_event pool <$> pools w) /\
  (forall d k, d ∉ pools w \/ k <> prop_active ->
     zprops w' !! (d, k) = zprops w !! (d, k)) /\
  jails w' = jails w /\ confs w' = confs w /\ pools w' = pools w.
Proof.
  intros Hf w'. subst w'. rewrite activate_eq.
  destruct (sweep_run fault pool (pools w) w Hf) as (w' & Hrun & Hz & Ht & Hj & Hc & Hp).
  rewrite (bind_ok _ _ _ _ _ Hrun). cbn [ret fst snd].
  repeat split; try assumption.
  intros d k Hdk. rewrite Hz, sweep_lookup.
  destruct (decide (d ∈ pools w /\ k = prop_active)) as [[Hd Hk]|_]; [ | reflexivity ].
  now destruct Hdk.
Qed.

Lemma activate_writes_each_pool_once_witness :
  (activate no_fault "data" demo).1 = Ok true /\
  trace (activate no_fault "data" demo).2
    = [EvZfsSet "tank" prop_active "no"; EvZfsSet "data" prop_active "yes"].
Proof.
  destruct (activate_writes_each_pool_once no_fault "data" demo (fun _ _ => eq_refl))
    as (Hres & Htrace & _).
  split; [ exact Hres | exact Htrace ].
Defined.

(** X7. Activation overrides an earlier activation: after [activate a] and
    then [activate b], the active properties are those [activate b] alone
    would have left, and a pool is active exactly if it is [b]. *)
Theorem activate_last_wins fault a b w :
  writes_succeed fault ->
  let w1 := (activate fault a w).2 in
  let w2 := (activate fault b w1).2 in
  zprops w2 = zprops (activate fault b w).2 /\
  forall p, p ∈ pools w -> active w2 p = bool_decide (p = b).
Proof.
  intros Hf w1 w2.
  destruct (activate_ok fault a w Hf) as (_ & Hz1 & Hp1).
  destruct (activate_ok fault b w1 Hf) as (_ & Hz2 & _).
  destruct (activate_ok fault b w Hf) as (_ & Hzb & _).
  fold w1 in Hz1, Hp1. fold w2 in Hz2.
  assert (Hlook : forall p k,
            zprops w2 !! (p, k) = sweep b (pools w) (zprops w) !! (p, k)).
  { intros p k. rewrite Hz2, Hp1, Hz1, !sweep_lookup.
    now destruct (decide (p ∈ pools w /\ k = prop_active)). }
  split.
  - rewrite Hzb. apply map_eq. intros [p k]. apply Hlook.
  - intros p Hp. unfold active. rewrite Hlook, sweep_lookup, decide_True by now split.
    unfold flag. destruct (String.eqb_spec p b) as [->|Hne].
    + now rewrite !bool_decide_eq_true_2.
    + rewrite !bool_decide_eq_false_2; [ reflexivity | exact Hne | discriminate ].
Qed.

Lemma activate_last_wins_witness :
  zprops (activate no_fault "data" (activate no_fault "tank" demo).2).2
    = zprops (activate no_fault "data" demo).2 /\
  forall p, p ∈ pools demo ->
    active (activate no_fault "data" (activate no_fault "tank" demo).2).2 p
      = bool_decide (p = "data").
Proof. apply (activate_last_wins no_fault "tank" "data" demo). intros p v. reflexivity. Defined.

(** X8. The sweep is not atomic. When the write for a pool fails, [activate]
    raises that error there: the pools before it in the list have their new
    flags, and every other active property is as it was. *)
Theorem activate_stops_at_first_failure fault pool w pre q post msg :
  pools w = pre ++ q :: post ->
  (forall p, p ∈ pre -> fault (write_event pool p) = None) ->
  fault (write_event pool q) = Some msg ->
  let w' := (activate fault pool w).2 in
  (activate fault pool w).1 = Raise (IocError msg) /\
  trace w' = trace w ++ (write_event pool <$> pre) ++ [write_event pool q] /\
  (forall p, p ∈ pre -> zprops w' !! (p, prop_active) = Some (flag pool p)) /\
  (forall p, p ∉ pre -> zprops w' !! (p, prop_active) = zprops w !! (p, prop_active)).
Proof.
  intros Hpools Hpre Hq w'. subst w'. rewrite activate_eq, Hpools.
  destruct (sweep_run_fail fault pool pre q post w msg Hpre Hq) as (w' & Hrun & Hz & Ht).
  rewrite (bind_raise _ _ _ _ _ Hrun). cbn [fst snd].
  repeat split; try assumption.
  - intros p Hp. rewrite Hz, sweep_lookup. now rewrite decide_True.
  - intros p Hp. rewrite Hz, sweep_lookup. rewrite decide_False; [ reflexivity | ].
    now intros [? _].
Qed.

Lemma activate_stops_at_first_failure_witness :
  (activate fail_on_data "tank" demo).1 = Raise (IocError "pool is read-only") /\
  zprops (activate fail_on_data "tank" demo).2 !! ("tank", prop_active) = Some "yes" /\
  zprops (activate fail_on_data "tank" demo).2 !! ("data", prop_active) = None.
Proof.
  destruct (activate_stops_at_first_failure fail_on_data "tank" demo ["tank"] "data" []
              "pool is read-only" eq_refl) as (Hres & _ & Hpre & Hrest).
  - intros p Hp. apply list_elem_of_singleton in Hp as ->. reflexivity.
  - reflexivity.
  - split; [ exact Hres | ]. split.
    + apply Hpre. apply list_elem_of_singleton. reflexivity.
    + rewrite Hrest; [ reflexivity | ].
      intros Hin. apply list_elem_of_singleton in Hin. discriminate Hin.
Defined.

(** ** Loops of backend calls *)

Lemma for_each_ioc_run fault {A} (ev : A -> Event) (eff : A -> World -> World) xs w :
  (forall x, x ∈ xs -> fault (ev x) = None) ->
  (forall x w', trace (eff x w') = trace w') ->
  exists w',
    for_each xs (fun x => ioc fault (ev x) (eff x)) w = (Ok tt, w') /\
    trace w' = trace w ++ (ev <$> xs).
Proof.
  intros Hf Heff. revert w. induction xs as [|x xs IH]; intros w.
  - exists w. simpl. now rewrite app_nil_r.
  - cbn [for_each].
    rewrite (bind_ok _ _ _ _ _ (ioc_ok fault _ _ w (Hf x ltac:(now left)))).
    destruct (IH (fun y Hy => Hf y ltac:(now right)) (eff x (log (ev x) w)))
      as (w' & Hrun & Ht).
    exists w'. split; [ exact Hrun | ]. rewrite Ht, Heff. simpl.
    now rewrite <- app_assoc.
Qed.

Lemma for_each_ioc_fail fault {A} (ev : A -> Event) (eff : A -> World -> World)
    pre x post w msg :
  (forall y, y ∈ pre -> fault (ev y) = None) ->
  (forall y w', trace (eff y w') = trace w') ->
  fault (ev x) = Some msg ->
  exists w',
    for_each (pre ++ x :: post) (fun y => ioc fault (ev y) (eff y)) w
      = (Raise (IocError msg), w') /\
    trace w' = trace w ++ (ev <$> pre) ++ [ev x].
Proof.
  intros Hf Heff Hx. revert w. induction pre as [|a pre IH]; intros w.
  - exists (log (ev x) w). cbn [app for_each].
    now rewrite (bind_raise _ _ _ _ _ (ioc_raise fault _ _ w msg Hx)).
  - cbn [app for_each].
    rewrite (bind_ok _ _ _ _ _ (ioc_ok fault _ _ w (Hf a ltac:(now left)))).
    destruct (IH (fun y Hy => Hf y ltac:(now right)) (eff a (log (ev a) w)))
      as (w' & Hrun & Ht).
    exists w'. split; [ exact Hrun | ]. rewrite Ht, Heff. simpl.
    now rewrite <- app_assoc.
Qed.

(** ** Setting properties *)

Lemma do_update_eq fault jail options w j :
  jails w !! jail = Some j ->
  do_update fault jail options w =
    bind (for_each (uo_attrs options)
            (fun kv => ioc fault (set_event jail (uo_plugin options) kv)
                           (set_jails (alter (fun j => with_props
                                                (j_props j ++ [kv.1 +:+ "=" +:+ kv.2]) j)
                                             jail))))
         (fun _ =>
            bind (when (truthy_opt (uo_name options))
                    (ioc fault (EvRename jail (default EmptyString (uo_name options)))
                         (set_jails (fun m =>
                            match m !! jail with
                            | Some j => <[default EmptyString (uo_name options) := j]>
                                          (delete jail m)
                            | None => m
                            end))))
                 (fun _ => ret true)) w.
Proof. intros Hj. unfold do_update. now step_found Hj. Qed.

(** X9. For an existing jail and a backend that accepts the calls,
    [do_update] writes the properties one call each, in the order given, as
    "key=value" with the plugin flag, and renames last, and only when a
    non-empty name was given; it returns [true]. *)
Theorem do_update_sets_then_renames fault jail options w j :
  jails w !! jail = Some j ->
  (forall kv, kv ∈ uo_attrs options ->
     fault (set_event jail (uo_plugin options) kv) = None) ->
  (truthy_opt (uo_name options) = true ->
     fault (EvRename jail (default EmptyString (uo_name options))) = None) ->
  (do_update fault jail options w).1 = Ok true /\
  trace (do_update fault jail options w).2 =
    trace w ++ (set_event jail (uo_plugin options) <$> uo_attrs options) ++
      (if truthy_opt (uo_name options)
       then [EvRename jail (default EmptyString (uo_name options))] else []).
Proof.
  intros Hj Hsets Hname. rewrite (do_update_eq fault jail options w j Hj).
  destruct (for_each_ioc_run fault (set_event jail (uo_plugin options))
              (fun kv => set_jails (alter (fun j => with_props
                                             (j_props j ++ [kv.1 +:+ "=" +:+ kv.2]) j) jail))
              (uo_attrs options) w Hsets (fun _ _ => eq_refl)) as (w' & Hrun & Ht).
  rewrite (bind_ok _ _ _ _ _ Hrun).
  destruct (truthy_opt (uo_name options)) eqn:Hn; cbn [when].
  - rewrite (bind_ok _ _ _ _ _ (ioc_ok fault _ _ w' (Hname eq_refl))).
    cbn [ret fst snd]. split; [ reflexivity | ]. simpl. rewrite Ht.
    now rewrite <- app_assoc.
  - rewrite (bind_ok (ret tt) _ w' tt w' eq_refl). cbn [ret fst snd].
    split; [ reflexivity | ]. now rewrite Ht, app_nil_r.
Qed.

Lemma do_update_sets_then_renames_witness :
  (do_update no_fault "web1"
     (mkUpdateOptions false (Some "www") [("boot", "on"); ("mtu", "9000")]) demo).1 = Ok true /\
  trace (do_update no_fault "web1"
           (mkUpdateOptions false (Some "www") [("boot", "on"); ("mtu", "9000")]) demo).2
    = [EvSet "web1" "boot=on" false; EvSet "web1" "mtu=9000" false; EvRename "web1" "www"].
Proof.
  apply (do_update_sets_then_renames no_fault "web1"
           (mkUpdateOptions false (Some "www") [("boot", "on"); ("mtu", "9000")]) demo
           (mkJail "/iocage/jails/web1" false [] ["/tmp /mnt nullfs rw 0 0"]) eq_refl).
  - intros kv _. reflexivity.
  - intros _. reflexivity.
Defined.

(** X10. When the backend rejects one of the properties, [do_update] raises
    that error at once: the properties before it have been written, the
    ones after it are not, and no rename is attempted. *)
Theorem do_update_stops_at_rejected_property fault jail options w j pre kv post msg :
  jails w !! jail = Some j ->
  uo_attrs options = pre ++ kv :: post ->
  (forall kv', kv' ∈ pre -> fault (set_event jail (uo_plugin options) kv') = None) ->
  fault (set_event jail (uo_plugin options) kv) = Some msg ->
  (do_update fault jail options w).1 = Raise (IocError msg) /\
  trace (do_update fault jail options w).2 =
    trace w ++ (set_event jail (uo_plugin options) <$> pre) ++
      [set_event jail (uo_plugin options) kv].
Proof.
  intros Hj Hattrs Hpre Hkv. rewrite (do_update_eq fault jail options w j Hj), Hattrs.
  destruct (for_each_ioc_fail fault (set_event jail (uo_plugin options))
              (fun kv => set_jails (alter (fun j => with_props
                                             (j_props j ++ [kv.1 +:+ "=" +:+ kv.2]) j) jail))
              pre kv post w msg Hpre (fun _ _ => eq_refl) Hkv) as (w' & Hrun & Ht).
  rewrite (bind_raise _ _ _ _ _ Hrun). cbn [fst snd]. now split.
Qed.

Lemma do_update_stops_at_rejected_property_witness :
  let options := mkUpdateOptions false (Some "www")
                   [("boot", "on"); ("mtu", "9000"); ("vnet", "on")] in
  (do_update fail_on_mtu "web1" options demo).1 = Raise (IocError "unknown property") /\
  trace (do_update fail_on_mtu "web1" options demo).2
    = [EvSet "web1" "boot=on" false; EvSet "web1" "mtu=9000" false].
Proof.
  intros options.
  apply (do_update_stops_at_rejected_property fail_on_mtu "web1" options demo
           (mkJail "/iocage/jails/web1" false [] ["/tmp /mnt nullfs rw 0 0"])
           [("boot", "on")] ("mtu", "9000") [("vnet", "on")] "unknown property"
           eq_refl eq_refl).
  - intros kv' Hin. apply list_elem_of_singleton in Hin as ->. reflexivity.
  - reflexivity.
Defined.

(** ** Delete, start and stop *)

(** X11. For an existing jail, [do_delete] makes exactly one call,
    [destroy_jail] on the jail resolved; the result is [true] when that call
    succeeds, and its error otherwise, with the jails as they were.  With a
    backend whose destroy removes the jail and no other, the identifier does
    not resolve afterwards: a second delete, or a start, fails with the "not
    found" error and calls nothing. *)
Theorem do_delete_removes_jail fault jail w j :
  jails w !! jail = Some j ->
  trace (do_delete fault jail w).2 = trace w ++ [EvDestroy jail] /\
  (do_delete fault jail w).1
    = match fault (EvDestroy jail) with
      | Some msg => Raise (IocError msg)
      | None => Ok true
      end /\
  (fault (EvDestroy jail) = None ->
     let w' := (do_delete fault jail w).2 in
     jails w' = delete jail (jails w) /\
     (forall other, other <> jail -> jails w' !! other = jails w !! other) /\
     do_delete fault jail w' = (Raise (NotFoundError jail), w') /\
     start fault jail w' = (Raise (NotFoundError jail), w')) /\
  (forall msg, fault (EvDestroy jail) = Some msg ->
     jails (do_delete fault jail w).2 = jails w).
Proof.
  intros Hj.
  assert (E : do_delete fault jail w =
              match fault (EvDestroy jail) with
              | Some msg => (Raise (IocError msg), log (EvDestroy jail) w)
              | None =>
                  (Ok true, set_confs (delete (j_path j))
                              (set_jails (delete jail) (log (EvDestroy jail) w)))
              end).
  { unfold do_delete. step_found Hj. cbn [fst snd].
    destruct (fault (EvDestroy jail)) as [msg|] eqn:Hf.
    - now rewrite (bind_raise _ _ _ _ _ (ioc_raise fault _ _ w msg Hf)).
    - now rewrite (bind_ok _ _ _ _ _ (ioc_ok fault _ _ w Hf)). }
  split; [ | split; [ | split ] ].
  - rewrite E. now destruct (fault (EvDestroy jail)).
  - rewrite E. now destruct (fault (EvDestroy jail)).
  - intros Hf w'. subst w'. rewrite E, Hf. cbn [fst snd].
    assert (Hgone : jails (set_confs (delete (j_path j))
                             (set_jails (delete jail) (log (EvDestroy jail) w))) !! jail
                    = None) by apply lookup_delete_eq.
    repeat split.
    + intros other Hne. simpl. now apply lookup_delete_ne.
    + unfold do_delete. now step_missing Hgone.
    + unfold start. now step_missing Hgone.
  - intros msg Hf. now rewrite E, Hf.
Qed.

Lemma do_delete_removes_jail_witness :
  trace (do_delete no_fault "web1" demo).2 = [EvDestroy "web1"] /\
  (do_delete no_fault "web1" demo).1 = Ok true /\
  jails (do_delete no_fault "web1" demo).2 !! "web1" = None /\
  (start no_fault "web1" (do_delete no_fault "web1" demo).2).1
    = Raise (NotFoundError "web1").
Proof.
  destruct (do_delete_removes_jail no_fault "web1" demo
              (mkJail "/iocage/jails/web1" false [] ["/tmp /mnt nullfs rw 0 0"]) eq_refl)
    as (Htrace & Hres & Hgone & _).
  destruct (Hgone eq_refl) as (Hjails & _ & _ & Hstart).
  split; [ exact Htrace | ]. split; [ exact Hres | ]. split.
  - rewrite Hjails. apply lookup_delete_eq.
  - now rewrite Hstart.
Defined.

(** X12. [start] and [stop] do not look at the current run state: for an
    existing jail they always delegate, whether or not the jail is already
    in that state.  When the backend goes through they return [true], the
    named jail is in the new run state with the rest of its record as
    before, and no other jail changes; [stop] after [start] leaves the jail
    stopped. *)
Theorem start_stop_delegate_always fault jail w j :
  jails w !! jail = Some j ->
  fault (EvStart jail) = None ->
  fault (EvStop jail) = None ->
  let w1 := (start fault jail w).2 in
  let w2 := (stop fault jail w1).2 in
  (start fault jail w).1 = Ok true /\
  trace w1 = trace w ++ [EvStart jail] /\
  jails w1 !! jail = Some (with_running true j) /\
  (forall other, other <> jail -> jails w1 !! other = jails w !! other) /\
  (stop fault jail w1).1 = Ok true /\
  trace w2 = trace w ++ [EvStart jail; EvStop jail] /\
  jails w2 !! jail = Some (with_running false j) /\
  (forall other, other <> jail -> jails w2 !! other = jails w !! other).
Proof.
  intros Hj Hstart Hstop w1 w2. subst w2 w1.
  rewrite (start_ok fault jail w j Hj Hstart). cbn [fst snd].
  pose proof (jails_after_transition true (EvStart jail) jail w j Hj) as Hj1.
  rewrite (stop_ok fault jail _ _ Hj1 Hstop). cbn [fst snd].
  repeat split.
  - exact Hj1.
  - intros other Hne. simpl. now apply lookup_alter_ne.
  - simpl. now rewrite <- app_assoc.
  - simpl. rewrite !lookup_alter_eq, Hj. reflexivity.
  - intros other Hne. simpl. now rewrite !lookup_alter_ne.
Qed.

Lemma start_stop_delegate_always_witness :
  trace (start no_fault "db1" demo).2 = [EvStart "db1"] /\
  run_state (stop no_fault "db1" (start no_fault "db1" demo).2).2 "db1" = Some false /\
  run_state (stop no_fault "db1" (start no_fault "db1" demo).2).2 "web1" = Some false.
Proof.
  destruct (start_stop_delegate_always no_fault "db1" demo
              (mkJail "/iocage/jails/db1" true [] []) eq_refl eq_refl eq_refl)
    as (_ & Ht & _ & _ & _ & _ & Hdb1 & Hother).
  split; [ exact Ht | ]. unfold run_state. split.
  - now rewrite Hdb1.
  - rewrite (Hother "web1"); [ reflexivity | discriminate ].
Defined.

(** ** Fetch, create and the resource lists *)

(** X13. [fetch] checks the datasets first and, when that check fails,
    raises its error without calling [iocage.fetch].  Otherwise exactly one
    fetch goes out: with the caller's options as they are when no name is
    given, and with ["plugins"] set to true, nothing else changed, when a
    name is given.  The result is [true] unless the fetch itself fails. *)
Theorem fetch_checks_then_fetches fault options w :
  (forall msg, fault EvCheck = Some msg ->
     fetch fault options w = (Raise (IocError msg), log EvCheck w)) /\
  (fault EvCheck = None ->
     trace (fetch fault options w).2
       = trace w ++ [EvCheck; EvFetch (fetch_options_sent options)] /\
     (fetch fault options w).1
       = match fault (EvFetch (fetch_options_sent options)) with
         | Some msg => Raise (IocError msg)
         | None => Ok true
         end) /\
  (fo_name options = None -> fetch_options_sent options = options) /\
  (forall name, fo_name options = Some name ->
     fetch_options_sent options = with_plugins true options /\
     fo_plugins (fetch_options_sent options) = Some true /\
     fo_release (fetch_options_sent options) = fo_release options /\
     fo_name (fetch_options_sent options) = Some name).
Proof.
  repeat split.
  - intros msg Hf. unfold fetch, check_dataset_existence.
    now rewrite (bind_raise _ _ _ _ _ (ioc_raise fault _ _ w msg Hf)).
  - unfold fetch, check_dataset_existence.
    rewrite (bind_ok _ _ _ _ _ (ioc_ok fault _ _ w H)). fold (fetch_options_sent options).
    unfold bind, ioc. destruct (fault (EvFetch (fetch_options_sent options)));
      simpl; now rewrite <- app_assoc.
  - unfold fetch, check_dataset_existence.
    rewrite (bind_ok _ _ _ _ _ (ioc_ok fault _ _ w H)). fold (fetch_options_sent options).
    unfold bind, ioc. now destruct (fault (EvFetch (fetch_options_sent options))).
  - intros Hn. unfold fetch_options_sent. now rewrite Hn.
  - unfold fetch_options_sent. now rewrite H.
  - unfold fetch_options_sent. now rewrite H.
  - unfold fetch_options_sent. now rewrite H.
  - unfold fetch_options_sent. now rewrite H.
Qed.

Lemma fetch_checks_then_fetches_witness :
  let plugin := mkFetchOptions "11.1-RELEASE" "download.freebsd.org" "anonymous"
                  "anonymous@" (Some "plex") true [] ["MANIFEST"] None in
  fetch fail_on_check plugin demo
    = (Raise (IocError "no activated pool"), log EvCheck demo) /\
  trace (fetch no_fault plugin demo).2 = [EvCheck; EvFetch (with_plugins true plugin)].
Proof.
  intros plugin.
  destruct (fetch_checks_then_fetches fail_on_check plugin demo) as (Hfail & _).
  destruct (fetch_checks_then_fetches no_fault plugin demo) as (_ & Hok & _).
  split; [ exact (Hfail _ eq_refl) | exact (proj1 (Hok eq_refl)) ].
Defined.

Lemma fetch_keeps_jails fault o w :
  jails (fetch fault o w).2 = jails w /\ confs (fetch fault o w).2 = confs w.
Proof.
  unfold fetch, check_dataset_existence, bind, ioc.
  destruct (fault EvCheck); [ now split | ].
  match goal with
  | |- context [fault (EvFetch ?o')] => now destruct (fault (EvFetch o'))
  end.
Qed.

Lemma create_tail_eq fault a w :
  bind (ioc_create fault a)
       (fun r => if r.1 then raise (CallError r.2) else ret true) w
  = match fault (EvCreate a) with
    | Some msg => (Raise (CallError msg), log (EvCreate a) w)
    | None => (Ok true, new_jail a (log (EvCreate a) w))
    end.
Proof. unfold bind, ioc_create. now destruct (fault (EvCreate a)). Qed.

Lemma create_job_eq fault wait_sync_raises options w :
  create_job fault wait_sync_raises options w =
    let tail :=
      bind (ioc_create fault (create_args options))
           (fun r => if r.1 then raise (CallError r.2) else ret true) in
    if needs_fetch options w then
      match fetch fault (fetch_defaults (co_release options)) w with
      | (Ok _, wf) => tail wf
      | (Raise e, wf) => if wait_sync_raises then (Raise e, wf) else tail wf
      end
    else tail w.
Proof.
  unfold create_job, needs_fetch, create_args. cbv zeta.
  rewrite (bind_ok (read iocroot) _ w (iocroot w) w eq_refl).
  rewrite (bind_ok (read _) _ w _ w eq_refl).
  destruct (truthy_opt (co_template options)) eqn:Ht.
  - rewrite !andb_false_r. simpl when.
    now rewrite (bind_ok (ret tt) _ w tt w eq_refl).
  - destruct (negb (bool_decide (release_dir (iocroot w) (co_release options) ∈ dirs w))
              && negb false && negb (co_empty options)) eqn:Hn.
    + simpl when. unfold bind at 1, call_sync_wait.
      destruct (fetch fault (fetch_defaults (co_release options)) w) as [[b|e] wf];
        [ reflexivity | now destruct wait_sync_raises ].
    + simpl when. now rewrite (bind_ok (ret tt) _ w tt w eq_refl).
Qed.

(** X14. [iocage.create] reports a failure in its result, and [create_job]
    turns it into a [CallError] with the backend's message, leaving the jails
    as they were; when the backend reports no error the result is [true].
    This holds whenever [iocage.create] is reached: no fetch is needed, or
    the wait for the fetch does not raise. *)
Theorem create_raises_backend_message fault wait_sync_raises options w :
  needs_fetch options w = false \/ wait_sync_raises = false ->
  (create_job fault wait_sync_raises options w).1
    = match fault (EvCreate (create_args options)) with
      | Some msg => Raise (CallError msg)
      | None => Ok true
      end /\
  (forall msg, fault (EvCreate (create_args options)) = Some msg ->
     jails (create_job fault wait_sync_raises options w).2 = jails w /\
     confs (create_job fault wait_sync_raises options w).2 = confs w).
Proof.
  intros Hreach. rewrite create_job_eq. cbv zeta.
  destruct (fetch_keeps_jails fault (fetch_defaults (co_release options)) w) as [Hfj Hfc].
  destruct (needs_fetch options w).
  - destruct Hreach as [Hreach | ->]; [ discriminate | ].
    destruct (fetch fault (fetch_defaults (co_release options)) w) as [[b|e] wf];
      rewrite create_tail_eq; cbn [fst snd] in *;
      (split; [ now destruct (fault (EvCreate (create_args options)))
              | intros msg Hm; rewrite Hm; now split ]).
  - rewrite create_tail_eq.
    split; [ now destruct (fault (EvCreate (create_args options)))
           | intros msg Hm; rewrite Hm; now split ].
Qed.

Lemma create_raises_backend_message_witness :
  (create_job fail_on_create true
     (mkCreateOptions "11.1-RELEASE" None None (Some "web2") false false false []) demo).1
    = Raise (CallError "release missing") /\
  jails (create_job fail_on_create true
           (mkCreateOptions "11.1-RELEASE" None None (Some "web2") false false false [])
           demo).2 !! "web2" = None.
Proof.
  destruct (create_raises_backend_message fail_on_create true
              (mkCreateOptions "11.1-RELEASE" None None (Some "web2") false false false [])
              demo (or_introl eq_refl)) as [Hres Hjails].
  split; [ exact Hres | ].
  now rewrite (proj1 (Hjails "release missing" eq_refl)).
Defined.



(** ** Fstab, the other actions *)

(** X16. [fstab] resolves the jail before it looks at its options: for an
    identifier that resolves to no jail it raises the "not found" error,
    also for a Replace without index, and calls nothing. *)
Theorem fstab_resolves_first fault jail options w :
  jails w !! jail = None ->
  fstab fault jail options w = (Raise (NotFoundError jail), w).
Proof. intros H. unfold fstab. now step_missing H. Qed.

Lemma fstab_resolves_first_witness :
  fstab no_fault "ghost"
    (mkFstabOptions REPLACE "/tmp" "/mnt" "nullfs" "ro" "0" "0" None) demo
  = (Raise (NotFoundError "ghost"), demo).
Proof. apply fstab_resolves_first. reflexivity. Defined.

(** X17. For an existing jail and options that pass the index check, [fstab]
    makes exactly one call to [iocage.fstab], with the caller's options as
    they are (the index is handed on, never replaced).  If that call fails
    its error is raised and the jails are as before; if it succeeds and the
    action is not List, the result is [true]. *)
Theorem fstab_delegates_once fault jail options w j :
  jails w !! jail = Some j ->
  (fs_action options = REPLACE -> fs_index options <> None) ->
  trace (fstab fault jail options w).2 = trace w ++ [EvFstab jail options] /\
  (forall msg, fault (EvFstab jail options) = Some msg ->
     (fstab fault jail options w).1 = Raise (IocError msg) /\
     jails (fstab fault jail options w).2 = jails w) /\
  (fault (EvFstab jail options) = None -> fs_action options <> LIST ->
     (fstab fault jail options w).1 = Ok FstabTrue).
Proof.
  intros Hj Hidx. unfold fstab. step_found Hj. cbn [fst snd].
  assert (Hpass : String.eqb (fstab_action_lower (fs_action options)) "replace"
                  && bool_decide (fs_index options = None) = false).
  { destruct (fs_action options); try reflexivity.
    apply bool_decide_eq_false_2. now apply Hidx. }
  rewrite Hpass. unfold ioc_fstab, bind, ioc, read.
  destruct (fault (EvFstab jail options)) as [msg|] eqn:Hf.
  - split; [ reflexivity | ]. split; [ | discriminate ].
    intros msg0 [= <-]. now split.
  - split; [ | split; [ discriminate | ] ].
    + now destruct (String.eqb (fstab_action_lower (fs_action options)) "list").
    + intros _ Hnl. now destruct (fs_action options).
Qed.

Lemma fstab_delegates_once_witness :
  let options := mkFstabOptions ADD "/data" "/mnt/data" "nullfs" "ro" "0" "0" None in
  trace (fstab no_fault "web1" options demo).2 = [EvFstab "web1" options] /\
  (fstab no_fault "web1" options demo).1 = Ok FstabTrue.
Proof.
  intros options.
  destruct (fstab_delegates_once no_fault "web1" options demo
              (mkJail "/iocage/jails/web1" false [] ["/tmp /mnt nullfs rw 0 0"]) eq_refl)
    as (Ht & _ & Hok); [ discriminate | ].
  split; [ exact Ht | apply Hok; [ reflexivity | discriminate ] ].
Defined.

(** ** Fstab, the listing *)

Lemma dict_set_fresh {K V} `{EqDecision K} (k : K) (v : V) (d : list (K * V)) :
  k ∉ d.*1 -> dict_set k v d = d ++ [(k, v)].
Proof.
  induction d as [|[k' v'] d IH]; intros Hk; [ reflexivity | ].
  cbn [dict_set]. apply not_elem_of_cons in Hk as [Hne Hk].
  rewrite decide_False by (intros ->; now apply Hne).
  simpl. now rewrite (IH Hk).
Qed.

Lemma dict_get_set_eq {K V} `{EqDecision K} (k : K) (v : V) (d : list (K * V)) :
  dict_get k (dict_set k v d) = Some v.
Proof.
  induction d as [|[k' v'] d IH]; cbn [dict_set dict_get].
  - now rewrite decide_True.
  - destruct (decide (k' = k)) as [->|Hne]; cbn [dict_get].
    + now rewrite decide_True.
    + now rewrite decide_False.
Qed.

Lemma dict_set_length {K V} `{EqDecision K} (k : K) (v : V) (d : list (K * V)) :
  length (dict_set k v d) = if decide (k ∈ d.*1) then length d else S (length d).
Proof.
  induction d as [|[k' v'] d IH]; cbn [dict_set].
  - rewrite decide_False; [ reflexivity | apply not_elem_of_nil ].
  - destruct (decide (k' = k)) as [->|Hne]; cbn [length].
    + rewrite decide_True; [ reflexivity | simpl; now left ].
    + rewrite IH. destruct (decide (k ∈ d.*1)) as [Hin|Hnin].
      * rewrite decide_True; [ reflexivity | simpl; now right ].
      * rewrite decide_False; [ reflexivity | ].
        simpl. intros [Heq|Hin]%elem_of_cons; [ now apply Hne | now apply Hnin ].
Qed.

Lemma split_fstab_list_acc (l : list (Z * string)) (acc : list (Z * list string)) :
  NoDup (acc.*1 ++ l.*1) ->
  foldl (fun split_list i => dict_set i.1 (PyStr.split_ws i.2) split_list) acc l
  = acc ++ ((fun i => (i.1, PyStr.split_ws i.2)) <$> l).
Proof.
  revert acc. induction l as [|x l IH]; intros acc Hnd.
  - simpl. now rewrite app_nil_r.
  - cbn [foldl]. rewrite dict_set_fresh.
    + rewrite IH.
      * rewrite <- app_assoc. reflexivity.
      * rewrite fmap_app, <- app_assoc. exact Hnd.
    + apply NoDup_app in Hnd as (_ & Hdisj & _).
      intros Hin. apply (Hdisj _ Hin). simpl. now left.
Qed.

Lemma fstab_listing_eq fault jail options w j :
  jails w !! jail = Some j ->
  fs_action options = LIST ->
  fault (EvFstab jail options) = None ->
  fstab fault jail options w =
    (Ok (FstabListing
           (split_fstab_list (imap (fun i l => (Z.of_nat i, l)) (j_fstab j)))),
     set_jails (alter (fun j => with_fstab (fstab_effect options (j_fstab j)) j) jail)
               (log (EvFstab jail options) w)).
Proof.
  intros Hj Ha Hf. unfold fstab. step_found Hj. cbn [fst snd]. rewrite Ha.
  cbn [fstab_action_lower String.eqb Ascii.eqb Bool.eqb andb].
  unfold ioc_fstab, bind at 1, bind at 1, ioc, read. rewrite Hf.
  cbn [jails set_jails log]. rewrite lookup_alter_eq, Hj. cbn [fmap option_fmap option_map].
  unfold fstab_effect at 1. rewrite Ha. reflexivity.
Qed.

(** X19. The loop that builds the listing is a dictionary update: when the
    keys of the backend's list are distinct the listing has one entry per
    element, in order; an element with a key seen before takes over that
    key's entry, so the listing never has more entries than the list and the
    last element for a key is the one looked up. *)
Theorem split_fstab_list_is_dict (l : list (Z * string)) :
  (NoDup l.*1 ->
     split_fstab_list l = (fun i => (i.1, PyStr.split_ws i.2)) <$> l) /\
  length (split_fstab_list l) <= length l /\
  (forall k s, dict_get k (split_fstab_list (l ++ [(k, s)])) = Some (PyStr.split_ws s)).
Proof.
  split; [ | split ].
  - intros Hnd. unfold split_fstab_list. now rewrite split_fstab_list_acc.
  - unfold split_fstab_list.
    enough (H : forall acc,
              length (foldl (fun split_list i =>
                               dict_set i.1 (PyStr.split_ws i.2) split_list) acc l)
              <= length acc + length l) by apply (H []).
    induction l as [|x l IH]; intros acc; [ simpl; lia | ].
    cbn [foldl length]. etransitivity; [ apply IH | ].
    rewrite dict_set_length. destruct (decide (x.1 ∈ acc.*1)); lia.
  - intros k s. unfold split_fstab_list. rewrite foldl_app. cbn [foldl fst snd].
    apply dict_get_set_eq.
Qed.

Lemma split_fstab_list_is_dict_witness :
  split_fstab_list [(0%Z, "/tmp /mnt nullfs rw 0 0"); (1%Z, "/a  /b nullfs ro 0 0")]
  = [(0%Z, ["/tmp"; "/mnt"; "nullfs"; "rw"; "0"; "0"]);
     (1%Z, ["/a"; "/b"; "nullfs"; "ro"; "0"; "0"])].
Proof.
  apply (proj1 (split_fstab_list_is_dict
                  [(0%Z, "/tmp /mnt nullfs rw 0 0"); (1%Z, "/a  /b nullfs ro 0 0")])).
  apply (bool_decide_unpack _). reflexivity.
Defined.

(** ** Query, whatever the backend does *)

Lemma try_except_all_ok {A} (c : M A) (h : M A) w :
  (forall w', exists a, (h w').1 = Ok a) ->
  exists a, (try_except c (fun _ => Some h) w).1 = Ok a.
Proof.
  intros Hh. unfold try_except. destruct (c w) as [[a|e] w'].
  - now exists a.
  - apply Hh.
Qed.

(** X20. [query] raises nothing, whatever fails while the jails are
    enumerated (the backend call or the reading of its answer): every
    exception of the try block is caught, and the method returns a list. *)
Theorem query_never_raises fault filters options w :
  exists l, (query fault filters options w).1 = Ok l.
Proof.
  unfold query, bind at 1.
  destruct (try_except_all_ok
              (bind (ioc_get_all fault) (fun all => comprehension first_value all))
              (bind (logger_debug "iocage failed to fetch jails") (fun _ => ret [])) w)
    as (jails & Hjails).
  { intros w'. now exists []. }
  destruct (try_except _ _ w) as [[a|e] w'] eqn:E; cbn [fst] in Hjails.
  - eexists. reflexivity.
  - discriminate Hjails.
Qed.

(** ** Exec *)

(** X21. For an existing jail, [exec] calls [iocage.exec] on that jail with
    a command that is never a single token: a command of one token gets
    "/bin/sh -c" in front, any other command is handed on as it is, so the
    caller's tokens are always the tail of what runs.  The host user is
    blanked exactly when a jail user is given and the host user is "root". *)
Theorem exec_wraps_single_token iocage_exec decode_utf8 jail command options w j :
  jails w !! jail = Some j ->
  exec iocage_exec decode_utf8 jail command options w
    = bind (iocage_exec jail (exec_command command) (exec_host_user options)
                        (eo_jail_user options))
           (fun msg => match decode_utf8 msg with
                       | Some s => ret s
                       | None => raise (ValueError "UnicodeDecodeError")
                       end) w /\
  length (exec_command command) <> 1 /\
  command `suffix_of` exec_command command /\
  (forall c, command = [c] -> exec_command command = ["/bin/sh"; "-c"; c]) /\
  (length command <> 1 -> exec_command command = command) /\
  (exec_host_user options <> eo_host_user options ->
     truthy_opt (eo_jail_user options) = true /\ eo_host_user options = "root" /\
     exec_host_user options = EmptyString).
Proof.
  intros Hj. split; [ | split; [ | split; [ | split; [ | split ] ] ] ].
  - unfold exec. now step_found Hj.
  - unfold exec_command. destruct (Nat.eqb_spec (length command) 1) as [E|E].
    + rewrite length_app, E. simpl. lia.
    + exact E.
  - unfold exec_command. destruct (Nat.eqb (length command) 1).
    + now apply suffix_app_r.
    + reflexivity.
  - intros c ->. reflexivity.
  - intros Hlen. unfold exec_command.
    now destruct (Nat.eqb_spec (length command) 1).
  - unfold exec_host_user.
    destruct (truthy_opt (eo_jail_user options)); [ | now intros [] ].
    destruct (String.eqb_spec (eo_host_user options) "root") as [E|E]; [ | now intros [] ].
    intros _. now repeat split.
Qed.

Lemma exec_wraps_single_token_witness :
  exec counting_exec ascii_decode "db1" ["ls -l /; whoami"] (mkExecOptions "root" (Some "www")) demo
    = (Ok "...", demo) /\
  exec counting_exec ascii_decode "db1" ["ls"; "-l"] (mkExecOptions "root" None) demo
    = (Ok "..", demo).
Proof.
  split.
  - rewrite (proj1 (exec_wraps_single_token counting_exec ascii_decode "db1"
                      ["ls -l /; whoami"] (mkExecOptions "root" (Some "www")) demo
                      (mkJail "/iocage/jails/db1" true [] []) eq_refl)).
    reflexivity.
  - rewrite (proj1 (exec_wraps_single_token counting_exec ascii_decode "db1"
                      ["ls"; "-l"] (mkExecOptions "root" None) demo
                      (mkJail "/iocage/jails/db1" true [] []) eq_refl)).
    reflexivity.
Defined.

(** X22. For an identifier that resolves to no jail, [exec] raises the "not
    found" error and [iocage.exec] is not called, whatever the backend. *)
Theorem exec_unknown_jail iocage_exec decode_utf8 jail command options w :
  jails w !! jail = None ->
  exec iocage_exec decode_utf8 jail command options w = (Raise (NotFoundError jail), w).
Proof. intros H. unfold exec. now step_missing H. Qed.

Lemma exec_unknown_jail_witness :
  exec quiet_exec ascii_decode "ghost" ["ls"] (mkExecOptions "root" None) demo
    = (Raise (NotFoundError "ghost"), demo).
Proof. apply exec_unknown_jail. reflexivity. Defined.
